(** * The task-tree engine of Smart-AI-Agent-IDE, embedded in Rocq

    The repository holds two generations of the engine: the package
    [src/agent] and the package [src/components] (the one [src/app.py]
    imports).  The node record, the dependency/constraint tracker, the
    creation of nodes and the recursive deletion are the same text in both
    and are embedded once; what differs (constraint parsing, output
    processing, execution, regeneration, sessions) is embedded per package
    in the modules [AgentPkg] and [Components].

    Python strings are embedded as [string]; a character is a code point
    of the Latin-1 range.  Python dictionaries used as maps are [gmap]s,
    parsed JSON objects keep their insertion order in association lists. *)

From stdpp Require Import gmap strings list fin_maps pretty.
From Stdlib Require Import ZArith Ascii String.

Set Warnings "-register-all".

(** ** Python values, exceptions and the string methods the engine calls *)

Module Py.

(** What [json.loads] returns and what a node's local memory stores.
    A float is kept as its IEEE-754 binary64 bit pattern. *)
Inductive pyval : Type :=
| PNone
| PBool (b : bool)
| PInt (z : Z)
| PFloat (bits : Z)
| PStr (s : string)
| PList (l : list pyval)
| PDict (d : list (string * pyval)).

(** A raised exception: its class name and [str(e)]. *)
Inductive exn : Type := Exception (cls : string) (msg : string).

Definition exn_str (e : exn) : string := let 'Exception _ m := e in m.
Definition exn_cls (e : exn) : string := let 'Exception c _ := e in c.

Inductive result (A : Type) : Type :=
| Ok (a : A)
| Raise (e : exn).
Arguments Ok {A} a.
Arguments Raise {A} e.

Definition dq : string := String (Ascii.ascii_of_nat 34) EmptyString.
Definition nl : string := String (Ascii.ascii_of_nat 10) EmptyString.

(** [str.isspace] on the Latin-1 range, which is also what [\s] matches
    and what [str.strip()] removes. *)
Definition is_space (a : ascii) : bool :=
  let n := Ascii.nat_of_ascii a in
  ((9 <=? n) && (n <=? 13)) || ((28 <=? n) && (n <=? 32))
  || (n =? 133) || (n =? 160).

(** The characters [int()] skips around a number: the Latin-1 white space
    without the four separators U+001C..U+001F. *)
Definition is_int_space (a : ascii) : bool :=
  let n := Ascii.nat_of_ascii a in
  ((9 <=? n) && (n <=? 13)) || (n =? 32) || (n =? 133) || (n =? 160).

Fixpoint lstrip_by (p : ascii -> bool) (s : string) : string :=
  match s with
  | EmptyString => EmptyString
  | String a s' => if p a then lstrip_by p s' else s
  end.

Fixpoint rstrip_by (p : ascii -> bool) (s : string) : string :=
  match s with
  | EmptyString => EmptyString
  | String a s' =>
      match rstrip_by p s' with
      | EmptyString => if p a then EmptyString else String a EmptyString
      | r => String a r
      end
  end.

(** [s.strip()] *)
Definition strip (s : string) : string := rstrip_by is_space (lstrip_by is_space s).

Definition digit_value (a : ascii) : option Z :=
  let n := Ascii.nat_of_ascii a in
  if (48 <=? n) && (n <=? 57) then Some (Z.of_nat (n - 48)) else None.

(** The digits of a decimal literal: groups of digits, one underscore
    allowed between two digits.  [sep] says that the previous character
    was not a digit. *)
Fixpoint int_digits (acc : Z) (sep : bool) (s : string) : option Z :=
  match s with
  | EmptyString => if sep then None else Some acc
  | String a s' =>
      match digit_value a with
      | Some d => int_digits (acc * 10 + d) false s'
      | None =>
          if Ascii.eqb a "_" && negb sep then int_digits acc true s' else None
      end
  end.

(** [str(n)] for an integer: the decimal digits, most significant first.
    The number of binary digits bounds the number of decimal ones. *)
Fixpoint dec_digits (fuel : nat) (n : N) (acc : string) : string :=
  match fuel with
  | O => acc
  | S fuel' =>
      let acc' := String (Ascii.ascii_of_N (48 + n mod 10)) acc in
      if (n / 10 =? 0)%N then acc' else dec_digits fuel' (n / 10)%N acc'
  end.

Definition str_of_N (n : N) : string := dec_digits (S (N.to_nat (N.log2 n))) n EmptyString.

Definition str_of_Z (z : Z) : string :=
  match z with
  | Zneg p => String "-" (str_of_N (Npos p))
  | _ => str_of_N (Z.to_N z)
  end.

(** [int(s)]: [None] stands for [ValueError]. *)
Definition py_int (s : string) : option Z :=
  match rstrip_by is_int_space (lstrip_by is_int_space s) with
  | String "+" r => int_digits 0 true r
  | String "-" r => Z.opp <$> int_digits 0 true r
  | t => int_digits 0 true t
  end.

(** [s.split(sep, 1)] for a one-character [sep]: [None] stands for the
    one-element list [[s]], [Some (l, r)] for the two-element list. *)
Fixpoint split_once (sep : ascii) (s : string) : option (string * string) :=
  match s with
  | EmptyString => None
  | String a s' =>
      if Ascii.eqb a sep then Some (EmptyString, s')
      else match split_once sep s' with
           | Some (l, r) => Some (String a l, r)
           | None => None
           end
  end.

Fixpoint is_prefix (p s : string) : bool :=
  match p, s with
  | EmptyString, _ => true
  | String a p', String b s' => Ascii.eqb a b && is_prefix p' s'
  | String _ _, EmptyString => false
  end.

(** [sub in s] for strings *)
Fixpoint str_contains (sub s : string) : bool :=
  is_prefix sub s ||
  match s with
  | EmptyString => false
  | String _ s' => str_contains sub s'
  end.

(** [s[:n]] *)
Fixpoint str_take (n : nat) (s : string) : string :=
  match n, s with
  | S n', String a s' => String a (str_take n' s')
  | _, _ => EmptyString
  end.

(** [sep.join(parts)] *)
Fixpoint join (sep : string) (parts : list string) : string :=
  match parts with
  | [] => EmptyString
  | [p] => p
  | p :: rest => p +:+ sep +:+ join sep rest
  end.

(** Truth value of a Python object ([if v:]). *)
Definition truthy (v : pyval) : bool :=
  match v with
  | PNone => false
  | PBool b => b
  | PInt z => negb (z =? 0)%Z
  | PFloat bits => negb ((bits mod 2 ^ 63) =? 0)%Z
  | PStr s => negb (String.eqb s EmptyString)
  | PList l => match l with [] => false | _ => true end
  | PDict d => match d with [] => false | _ => true end
  end.

Definition is_str (v : pyval) : bool := match v with PStr _ => true | _ => false end.

(** [d.get(key)] on an insertion-ordered dictionary. *)
Fixpoint dict_get (d : list (string * pyval)) (key : string) : option pyval :=
  match d with
  | [] => None
  | (k, v) :: d' => if String.eqb k key then Some v else dict_get d' key
  end.

(** [key in v] for a string [key]: key membership on a dictionary,
    element membership on a list, substring test on a string, and a
    [TypeError] on the objects that are not containers. *)
Definition py_in (key : string) (v : pyval) : result bool :=
  match v with
  | PDict d => Ok (bool_decide (is_Some (dict_get d key)))
  | PList l => Ok (existsb (fun x => match x with PStr s => String.eqb s key | _ => false end) l)
  | PStr s => Ok (str_contains key s)
  | PNone => Raise (Exception "TypeError" "argument of type 'NoneType' is not iterable")
  | PBool _ => Raise (Exception "TypeError" "argument of type 'bool' is not iterable")
  | PInt _ => Raise (Exception "TypeError" "argument of type 'int' is not iterable")
  | PFloat _ => Raise (Exception "TypeError" "argument of type 'float' is not iterable")
  end.

(** [v[key]] for a string [key].  On a dictionary it is the stored value
    (a [KeyError] when absent); a list or a string cannot be indexed by
    a string. *)
Definition py_getitem (v : pyval) (key : string) : result pyval :=
  match v with
  | PDict d =>
      match dict_get d key with
      | Some x => Ok x
      | None => Raise (Exception "KeyError" ("'" +:+ key +:+ "'"))
      end
  | PList _ => Raise (Exception "TypeError" "list indices must be integers or slices, not str")
  | PStr _ => Raise (Exception "TypeError" "string indices must be integers, not 'str'")
  | PNone => Raise (Exception "TypeError" "'NoneType' object is not subscriptable")
  | PBool _ => Raise (Exception "TypeError" "'bool' object is not subscriptable")
  | PInt _ => Raise (Exception "TypeError" "'int' object is not subscriptable")
  | PFloat _ => Raise (Exception "TypeError" "'float' object is not subscriptable")
  end.

End Py.
Export Py.

(** ** The data model: nodes, local memory, session state *)

(** [LocalMemory] of [memory.py]: the owner's id and the dictionary. *)
Record LocalMemory : Type := mkLocalMemory {
  mem_node_id : string;
  mem_local_memory : gmap string pyval
}.

(** The attribute [Node.local_memory] holds a [LocalMemory] object; after
    [AgentPkg.save_session] it holds a plain dictionary instead. *)
Inductive memory_attr : Type :=
| LMObject (m : LocalMemory)
| LMDict (d : gmap string pyval).

(** The attributes of a [Node] object, in the order [Node.__init__]
    assigns them.  The task description is declared [Optional[str]]; the
    output processing of [agent] can pass on any JSON value, so it is a
    Python value here ([PNone] for [None]). *)
Record Node : Type := mkNode {
  node_id : string;
  depth : Z;
  local_memory : memory_attr;
  parent_id : option string;
  child_ids : list string;
  status : string;
  output : string;
  error_message : string;
  task_description : pyval
}.

Definition STATUS_PENDING : string := "pending".
Definition STATUS_RUNNING : string := "running".
Definition STATUS_COMPLETED : string := "completed".
Definition STATUS_FAILED : string := "failed".
Definition MAX_RETRIES : nat := 3.
Definition RETRY_DELAY : Z := 2.

Definition set_local_memory (m : memory_attr) (n : Node) : Node :=
  mkNode (node_id n) (depth n) m (parent_id n) (child_ids n) (status n)
         (output n) (error_message n) (task_description n).
Definition set_node_id (i : string) (n : Node) : Node :=
  mkNode i (depth n) (local_memory n) (parent_id n) (child_ids n) (status n)
         (output n) (error_message n) (task_description n).
Definition set_child_ids (c : list string) (n : Node) : Node :=
  mkNode (node_id n) (depth n) (local_memory n) (parent_id n) c (status n)
         (output n) (error_message n) (task_description n).
Definition set_status (st : string) (n : Node) : Node :=
  mkNode (node_id n) (depth n) (local_memory n) (parent_id n) (child_ids n) st
         (output n) (error_message n) (task_description n).
Definition set_output (o : string) (n : Node) : Node :=
  mkNode (node_id n) (depth n) (local_memory n) (parent_id n) (child_ids n) (status n)
         o (error_message n) (task_description n).
Definition set_error_message (e : string) (n : Node) : Node :=
  mkNode (node_id n) (depth n) (local_memory n) (parent_id n) (child_ids n) (status n)
         (output n) e (task_description n).

(** A constraint checker: [(value, node) -> bool], which may assign to the
    node's attributes and, like any call, may raise. *)
Definition ConstraintChecker : Type := string -> Node -> result bool * Node.

(** What the engine does to the world outside the session. *)
Inductive Event : Type :=
| EvGenerate (prompt : string)
| EvSleep (seconds : Z)
| EvChecker (constraint_type constraint_value : string).

(** The session: [st.session_state.node_lookup], the tracker's two maps
    and checker registry, the root id, the agent's global context and
    execution counter.  The last three fields record the outside world:
    how many identifiers [uuid.uuid4()] has handed out, how many times the
    gateway was called, and the events so far (most recent last).

    A [Node] object is referred to by the key under which the node table
    holds it, which is where every caller takes it from. *)
Record Session : Type := mkSession {
  node_lookup : gmap string Node;
  dependency_graph : gmap string (list string);
  constraints : gmap string (list string);
  constraint_checkers : gmap string ConstraintChecker;
  root_node_id : option string;
  global_context : pyval;
  execution_count : Z;
  uuid_count : nat;
  llm_calls : nat;
  trace : list Event
}.

Definition with_node_lookup (f : gmap string Node -> gmap string Node) (s : Session) : Session :=
  mkSession (f (node_lookup s)) (dependency_graph s) (constraints s) (constraint_checkers s)
            (root_node_id s) (global_context s) (execution_count s) (uuid_count s)
            (llm_calls s) (trace s).
Definition with_dependency_graph (f : gmap string (list string) -> gmap string (list string))
    (s : Session) : Session :=
  mkSession (node_lookup s) (f (dependency_graph s)) (constraints s) (constraint_checkers s)
            (root_node_id s) (global_context s) (execution_count s) (uuid_count s)
            (llm_calls s) (trace s).
Definition with_constraints (f : gmap string (list string) -> gmap string (list string))
    (s : Session) : Session :=
  mkSession (node_lookup s) (dependency_graph s) (f (constraints s)) (constraint_checkers s)
            (root_node_id s) (global_context s) (execution_count s) (uuid_count s)
            (llm_calls s) (trace s).
Definition with_constraint_checkers
    (f : gmap string ConstraintChecker -> gmap string ConstraintChecker) (s : Session) : Session :=
  mkSession (node_lookup s) (dependency_graph s) (constraints s) (f (constraint_checkers s))
            (root_node_id s) (global_context s) (execution_count s) (uuid_count s)
            (llm_calls s) (trace s).
Definition with_root_node_id (r : option string) (s : Session) : Session :=
  mkSession (node_lookup s) (dependency_graph s) (constraints s) (constraint_checkers s)
            r (global_context s) (execution_count s) (uuid_count s) (llm_calls s) (trace s).
Definition with_global_context (c : pyval) (s : Session) : Session :=
  mkSession (node_lookup s) (dependency_graph s) (constraints s) (constraint_checkers s)
            (root_node_id s) c (execution_count s) (uuid_count s) (llm_calls s) (trace s).
Definition with_execution_count (c : Z) (s : Session) : Session :=
  mkSession (node_lookup s) (dependency_graph s) (constraints s) (constraint_checkers s)
            (root_node_id s) (global_context s) c (uuid_count s) (llm_calls s) (trace s).
Definition with_uuid_count (c : nat) (s : Session) : Session :=
  mkSession (node_lookup s) (dependency_graph s) (constraints s) (constraint_checkers s)
            (root_node_id s) (global_context s) (execution_count s) c (llm_calls s) (trace s).
Definition with_llm_calls (c : nat) (s : Session) : Session :=
  mkSession (node_lookup s) (dependency_graph s) (constraints s) (constraint_checkers s)
            (root_node_id s) (global_context s) (execution_count s) (uuid_count s) c (trace s).
Definition emit (e : Event) (s : Session) : Session :=
  mkSession (node_lookup s) (dependency_graph s) (constraints s) (constraint_checkers s)
            (root_node_id s) (global_context s) (execution_count s) (uuid_count s)
            (llm_calls s) (trace s ++ [e]).

(** Assignment to the attributes of the node object held under [nid]. *)
Definition update_node (nid : string) (f : Node -> Node) (s : Session) : Session :=
  with_node_lookup (alter f nid) s.

(** ** A state-and-exception monad for the code that can raise *)

Definition M (A : Type) : Type := Session -> result A * Session.

Definition ret {A} (a : A) : M A := fun s => (Ok a, s).
Definition raise {A} (e : exn) : M A := fun s => (Raise e, s).
Definition bind {A B} (c : M A) (k : A -> M B) : M B :=
  fun s => match c s with
           | (Ok a, s') => k a s'
           | (Raise e, s') => (Raise e, s')
           end.
(** [try: c except Exception as e: h e] *)
Definition try_except {A} (c : M A) (h : exn -> M A) : M A :=
  fun s => match c s with
           | (Ok a, s') => (Ok a, s')
           | (Raise e, s') => h e s'
           end.
Definition get_session : M Session := fun s => (Ok s, s).
Definition modify (f : Session -> Session) : M unit := fun s => (Ok tt, f s).
Definition lift_result {A} (r : result A) : M A := fun s => (r, s).

Notation "'let*' x ':=' c 'in' k" := (bind c (fun x => k))
  (at level 10, x pattern, c at level 100, k at level 200).
Notation "c ';;' k" := (bind c (fun _ => k))
  (at level 100, k at level 200, right associativity).

(** [for x in l: body x] *)
Fixpoint for_each {A} (l : list A) (body : A -> M unit) : M unit :=
  match l with
  | [] => ret tt
  | x :: l' => body x ;; for_each l' body
  end.

(** ** The world outside the repository

    The identifier source, the gateway and the functions of Python's
    standard library that the engine calls are parameters of the model.
    [uuid4 k] is the string of the [k]-th identifier handed out;
    [llm k prompt] is the outcome of the [k]-th gateway call
    ([response.text], or the exception it raises).  A regular expression
    is passed as the pattern text of the source; [re_findall] is for a
    pattern with one capture group and gives that group per match,
    [re_findall2] is for a pattern with two groups, [re_search] gives the
    first match as group 0 followed by the capture groups.  [py_str] is
    [str(v)] for the values that are not strings. *)
Inductive re_flag : Type := DOTALL | MULTILINE.

Record Env : Type := mkEnv {
  uuid4 : nat -> string;
  llm : nat -> string -> result string;
  json_loads : string -> result pyval;
  re_findall : string -> list re_flag -> string -> list string;
  re_findall2 : string -> list re_flag -> string -> list (string * string);
  re_search : string -> list re_flag -> string -> option (list string);
  re_sub : string -> string -> list re_flag -> string -> string;
  py_str : pyval -> string
}.

Definition no_node : Node := mkNode "" 0 (LMDict ∅) None [] "" "" "" PNone.

(** The node object held under [nid]. *)
Definition node_at (s : Session) (nid : string) : Node :=
  default no_node (node_lookup s !! nid).

(** ** The tracker ([attention_mechanism.py], same text in both packages) *)

Definition add_dependency (dependent_node_id : string) (dependency_node_id : option string)
    (s : Session) : Session :=
  let s1 :=
    match dependency_graph s !! dependent_node_id with
    | None => with_dependency_graph (insert dependent_node_id []) s
    | Some _ => s
    end in
  match dependency_node_id with
  | Some d =>
      if truthy (PStr d)
         && negb (bool_decide (d ∈ default [] (dependency_graph s1 !! dependent_node_id)))
      then with_dependency_graph (alter (fun l => l ++ [d]) dependent_node_id) s1
      else s1
  | None => s1
  end.

Definition track_dependencies (parent_node_id : option string) (current_node_id : string)
    (s : Session) : Session :=
  add_dependency current_node_id parent_node_id s.

Definition get_dependencies (nid : string) (s : Session) : list string :=
  default [] (dependency_graph s !! nid).

Definition add_constraint (nid : string) (constraint : string) (s : Session) : Session :=
  let s1 :=
    match constraints s !! nid with
    | None => with_constraints (insert nid []) s
    | Some _ => s
    end in
  if bool_decide (constraint ∈ default [] (constraints s1 !! nid))
  then s1
  else with_constraints (alter (fun l => l ++ [constraint]) nid) s1.

Definition get_constraints (nid : string) (s : Session) : list string :=
  default [] (constraints s !! nid).

(** [l.remove(x)]: drops the first occurrence. *)
Fixpoint list_remove (x : string) (l : list string) : list string :=
  match l with
  | [] => []
  | y :: l' => if decide (y = x) then l' else y :: list_remove x l'
  end.

Definition remove_node (nid : string) (s : Session) : Session :=
  let s1 := with_dependency_graph (delete nid) s in
  let s2 := with_constraints (delete nid) s1 in
  with_dependency_graph
    (fmap (fun sources => if bool_decide (nid ∈ sources) then list_remove nid sources else sources))
    s2.

Definition fail_node (msg : string) (node : Node) : Node :=
  set_error_message msg (set_status STATUS_FAILED node).

Section Checkers.
Context (env : Env).

Definition _check_json_format (constraint_value : string) (node : Node) : result bool * Node :=
  match json_loads env (output node) with
  | Ok _ => (Ok true, node)
  | Raise e =>
      if String.eqb (exn_cls e) "JSONDecodeError"
      then (Ok false,
            fail_node ("Constraint violated: Output must be in JSON format. Output: "
                       +:+ output node) node)
      else (Raise e, node)
  end.

Definition _check_contains_word (constraint_value : string) (node : Node) : result bool * Node :=
  if str_contains constraint_value (output node) then (Ok true, node)
  else (Ok false,
        fail_node ("Constraint violated: Output must contain '" +:+ constraint_value
                   +:+ "'. Output: " +:+ output node) node).

Definition _check_max_length (constraint_value : string) (node : Node) : result bool * Node :=
  match py_int constraint_value with
  | Some max_length =>
      if (Z.of_nat (String.length (output node)) <=? max_length)%Z then (Ok true, node)
      else (Ok false,
            fail_node ("Constraint violated: Output must be no more than " +:+ str_of_Z max_length
                       +:+ " characters. Output: " +:+ output node) node)
  | None =>
      (Ok false,
       fail_node ("Constraint violated: Invalid max length value '" +:+ constraint_value +:+ "'")
                 node)
  end.

(** [components] only: a fenced block found by [re.findall] with [re.DOTALL]. *)
Definition _check_has_code (constraint_value : string) (node : Node) : result bool * Node :=
  match re_findall2 env "```(\w*)\n(.*?)\n```" [DOTALL] (output node) with
  | [] =>
      (Ok false,
       fail_node "Constraint violated: Output must contain code blocks. No code blocks found."
                 node)
  | _ => (Ok true, node)
  end.

End Checkers.

(** [check_constraints]: the two packages differ only in the parser, which
    is a parameter here ([AgentPkg.parse_constraint] returns the pair,
    [Components.parse_constraint] a dictionary with the keys [type] and
    [value]). *)
Section CheckConstraints.
Context (parse : string -> string * string).

(** The call [checker(constraint_value, node)]. *)
Definition call_checker (nid ctype cvalue : string) (checker : ConstraintChecker) : M bool :=
  fun s =>
    let '(r, node') := checker cvalue (node_at s nid) in
    (r, update_node nid (fun _ => node') (emit (EvChecker ctype cvalue) s)).

Fixpoint check_each (nid : string) (cs : list string) : M bool :=
  match cs with
  | [] => ret true
  | c :: cs' =>
      let '(ctype, cvalue) := parse c in
      let* s := get_session in
      match constraint_checkers s !! ctype with
      | Some checker =>
          let* ok := call_checker nid ctype cvalue checker in
          if ok then check_each nid cs' else ret false
      | None => check_each nid cs'
      end
  end.

Definition check_constraints (nid : string) : M bool :=
  let* s := get_session in
  check_each nid (get_constraints (node_id (node_at s nid)) s).

End CheckConstraints.

(** ** Creating and deleting nodes ([node.py], [agent.py]) *)

Section Tree.
Context (env : Env).

(** [Node.__init__] *)
Definition Node_init (parent : option string) (task : pyval) (d : Z)
    (s : Session) : Node * Session :=
  let nid := uuid4 env (uuid_count s) in
  let mem : gmap string pyval := if truthy task then {[ "task" := task ]} else ∅ in
  (mkNode nid d (LMObject (mkLocalMemory nid mem)) parent [] STATUS_PENDING "" "" task,
   with_uuid_count (S (uuid_count s)) s).

(** [Node.add_child] *)
Definition add_child (child_id : string) (n : Node) : Node :=
  if bool_decide (child_id ∈ child_ids n) then n
  else set_child_ids (child_ids n ++ [child_id]) n.

(** [Agent.create_root_node]; an absent [initial_constraints] is the
    empty list. *)
Definition create_root_node (task : string) (initial_constraints : list string)
    (s : Session) : Node * Session :=
  let '(new_node, s1) := Node_init None (PStr task) 0 s in
  let s2 := with_node_lookup (insert (node_id new_node) new_node) s1 in
  let s3 := foldl (fun acc c => add_constraint (node_id new_node) c acc) s2 initial_constraints in
  (new_node, track_dependencies None (node_id new_node) s3).

(** [Agent.create_child_node] of [components] and [Node.create_child_node]
    of [agent]: the new node, its registration in the table, the link from
    the parent object (held under [parent]) and the tracked dependency. *)
Definition create_child_node (parent : string) (task : pyval) (d : Z)
    (s : Session) : Node * Session :=
  let pid := node_id (node_at s parent) in
  let '(new_node, s1) := Node_init (Some pid) task d s in
  let s2 := with_node_lookup (insert (node_id new_node) new_node) s1 in
  let s3 := update_node parent (add_child (node_id new_node)) s2 in
  (new_node, track_dependencies (Some pid) (node_id new_node) s3).

(** [Node._create_child_node] of [components], and the two calls of
    [Node.process_llm_output] in [agent]: the child is asked for at the
    depth of the parent plus one.  ([setup_agent] has put the agent into
    the session.) *)
Definition _create_child_node (parent : string) (task : pyval) (s : Session) : Session :=
  snd (create_child_node parent task (depth (node_at s parent) + 1) s).

(** [Agent.delete_node_and_children].  The recursion of the source follows
    the child links; [fuel] bounds its depth and [None] means that the
    bound was reached. *)
Fixpoint delete_node_and_children (fuel : nat) (node : Node) (s : Session) : option Session :=
  match fuel with
  | O => None
  | S fuel' =>
      let visit (acc : option Session) (child_id : string) : option Session :=
        match acc with
        | None => None
        | Some s1 =>
            match node_lookup s1 !! child_id with
            | Some child => delete_node_and_children fuel' child s1
            | None => Some s1
            end
        end in
      match foldl visit (Some s) (child_ids node) with
      | None => None
      | Some s2 =>
          Some (remove_node (node_id node) (with_node_lookup (delete (node_id node)) s2))
      end
  end.

(** The operations that build a tree: [Agent.create_root_node] and the
    creation of a child of a node of the table. *)
Inductive tree_op : Type :=
| CreateRoot (task : string) (initial_constraints : list string)
| CreateChild (parent : string) (task : string).

Definition run_op (s : Session) (o : tree_op) : Session :=
  match o with
  | CreateRoot task cs => snd (create_root_node task cs s)
  | CreateChild parent task =>
      match node_lookup s !! parent with
      | Some _ => _create_child_node parent (PStr task) s
      | None => s
      end
  end.

Definition run_ops (s : Session) (ops : list tree_op) : Session := foldl run_op s ops.

End Tree.

(** The shape of a tree built by the creation operations: table keys are
    the nodes' own identifiers, handed out by [uuid4]; a node without
    parent sits at depth 0; a node with a parent sits one level below it;
    every child link leads to a node one level below that names its
    parent; depths are bounded by the number of identifiers handed out. *)
Definition tree_inv (env : Env) (s : Session) : Prop :=
  (forall k n, node_lookup s !! k = Some n ->
     node_id n = k /\ exists j, j < uuid_count s /\ k = uuid4 env j) /\
  (forall k n, node_lookup s !! k = Some n ->
     match parent_id n with
     | None => depth n = 0%Z
     | Some p => exists pn, node_lookup s !! p = Some pn /\ depth n = (depth pn + 1)%Z
     end) /\
  (forall k n c, node_lookup s !! k = Some n -> c ∈ child_ids n ->
     exists cn, node_lookup s !! c = Some cn /\ parent_id cn = Some k
                /\ depth cn = (depth n + 1)%Z) /\
  (forall k n, node_lookup s !! k = Some n ->
     (0 <= depth n < Z.of_nat (uuid_count s))%Z).

(** No dependency list repeats an identifier. *)
Definition deps_NoDup (s : Session) : Prop :=
  forall k l, dependency_graph s !! k = Some l -> NoDup l.

(** ** A small world for the examples

    Identifiers are the decimal numerals 0, 1, 2, ...; the library
    functions are given by their values on the texts the examples use:
    none of these texts holds a code fence, and [json_loads_ex] lists the
    JSON documents among them (every other text of the examples is not
    JSON). *)
Definition JSONDecodeError : exn :=
  Exception "JSONDecodeError" "Expecting value: line 1 column 1 (char 0)".

Definition json_loads_ex (text : string) : result pyval :=
  if String.eqb text "{}" then Ok (PDict [])
  else if String.eqb text ("{" +:+ dq +:+ "subtasks" +:+ dq +:+ ": ["
                           +:+ dq +:+ "a" +:+ dq +:+ ", " +:+ dq +:+ "b" +:+ dq +:+ "]}")
       then Ok (PDict [("subtasks", PList [PStr "a"; PStr "b"])])
  else Raise JSONDecodeError.

(** A brace-free text has no match of a pattern that starts with a brace;
    a text that is one balanced brace pair is its own first match. *)
Definition re_search_ex (pattern : string) (flags : list re_flag) (text : string)
    : option (list string) :=
  if negb (str_contains "{" text) then None
  else if is_prefix "\{(?:" pattern && is_prefix "{" text
          && negb (str_contains "{" (str_take (String.length text - 1) (String.substring 1 (String.length text) text)))
          && String.eqb (String.substring (String.length text - 1) 1 text) "}"
          && negb (str_contains "}" (str_take (String.length text - 1) text))
       then Some [text]
  else None.

Definition env_ex (gateway : nat -> string -> result string) : Env :=
  mkEnv (fun k => pretty k)
        gateway
        json_loads_ex
        (fun _ _ _ => [])
        (fun _ _ _ => [])
        re_search_ex
        (fun _ _ _ text => text)
        (fun v => match v with PStr s => s | _ => EmptyString end).

Definition gateway_down : nat -> string -> result string :=
  fun _ _ => Raise (Exception "ConnectionError" "gateway unreachable").

Definition session0 : Session :=
  mkSession ∅ ∅ ∅ ∅ None (PStr "This agent decomposes complex tasks.") 0 0 0 [].

(** [reaches t node d]: [d] is the identifier of [node] or of a
    descendant, found by following child links to nodes of the table [t]. *)
Inductive reaches (t : gmap string Node) : Node -> string -> Prop :=
| reaches_self n : reaches t n (node_id n)
| reaches_child n c cn d :
    c ∈ child_ids n -> t !! c = Some cn -> reaches t cn d -> reaches t n d.

(** The tracker holds nothing about [d]. *)
Definition tracker_free (d : string) (s : Session) : Prop :=
  dependency_graph s !! d = None /\ constraints s !! d = None
  /\ forall k l, dependency_graph s !! k = Some l -> d ∉ l.

(** [d] is absent from the node table, the dependency graph, the
    constraints map and every dependency list. *)
Definition gone (d : string) (s : Session) : Prop :=
  node_lookup s !! d = None /\ tracker_free d s.

(** The state of a deletion in progress, relative to the table [t0] it
    started from: only nodes of [t0] are left, the children of a removed
    node are removed, the tracker holds nothing about a removed node, and
    no dependency list repeats an identifier. *)
Definition deleting (t0 : gmap string Node) (s : Session) : Prop :=
  (forall k n, node_lookup s !! k = Some n -> t0 !! k = Some n) /\
  (forall x xn c, t0 !! x = Some xn -> node_lookup s !! x = None ->
     c ∈ child_ids xn -> node_lookup s !! c = None) /\
  (forall x, is_Some (t0 !! x) -> node_lookup s !! x = None -> tracker_free x s) /\
  (forall k l, dependency_graph s !! k = Some l -> NoDup l).

(** A tree of four nodes: the root 0, its children 1 and 2, and the
    child 3 of node 1. *)
Definition session_tree : Session :=
  run_ops (env_ex gateway_down) session0
    [CreateRoot "build a site" ["code"]; CreateChild "0" "layout";
     CreateChild "0" "styles"; CreateChild "1" "header"].

(** ** Node methods shared by the two packages *)

(** [node.store_in_memory(key, value)], that is
    [node.local_memory.store(key, value)]: an [AttributeError] when the
    attribute holds a plain dictionary. *)
Definition store_in_memory (nid key : string) (value : pyval) : M unit :=
  fun s =>
    match local_memory (node_at s nid) with
    | LMObject m =>
        (Ok tt,
         update_node nid
           (set_local_memory
              (LMObject (mkLocalMemory (mem_node_id m) (<[key := value]> (mem_local_memory m)))))
           s)
    | LMDict _ =>
        (Raise (Exception "AttributeError" "'dict' object has no attribute 'store'"), s)
    end.

(** [node.retrieve_from_memory(key)]: [None] for a missing key. *)
Definition retrieve_from_memory (nid key : string) : M pyval :=
  fun s =>
    match local_memory (node_at s nid) with
    | LMObject m => (Ok (default PNone (mem_local_memory m !! key)), s)
    | LMDict _ =>
        (Raise (Exception "AttributeError" "'dict' object has no attribute 'retrieve'"), s)
    end.

(** A value inside an f-string: a string stands for itself. *)
Definition fmt (env : Env) (v : pyval) : string :=
  match v with
  | PStr s => s
  | _ => py_str env v
  end.

(** [context + text] where [text] is a string. *)
Definition py_add_str (context : pyval) (text : string) : result pyval :=
  match context with
  | PStr c => Ok (PStr (c +:+ text))
  | _ => Raise (Exception "TypeError" "unsupported operand type(s) for +")
  end.

(** [d.get(key, default)] on what [json.loads] returned. *)
Definition py_get (v : pyval) (key : string) (dflt : pyval) : result pyval :=
  match v with
  | PDict d => Ok (default dflt (dict_get d key))
  | _ => Raise (Exception "AttributeError" "object has no attribute 'get'")
  end.

(** [sep.join(parts)] where the parts are Python values: every part has
    to be a string. *)
Fixpoint strings_of (parts : list pyval) : option (list string) :=
  match parts with
  | [] => Some []
  | PStr p :: rest => cons p <$> strings_of rest
  | _ :: _ => None
  end.

Definition py_join (sep : string) (parts : list pyval) : result string :=
  match strings_of parts with
  | Some l => Ok (join sep l)
  | None => Raise (Exception "TypeError" "sequence item: expected str instance")
  end.

(** The gateway call [self.llm.generate_content(prompt, ...)] followed by
    [response.text]. *)
Definition generate_content (env : Env) (prompt : string) : M string :=
  fun s =>
    (llm env (llm_calls s) prompt,
     with_llm_calls (S (llm_calls s)) (emit (EvGenerate prompt) s)).

(** [time.sleep(seconds)] *)
Definition sleep (seconds : Z) : M unit := modify (emit (EvSleep seconds)).

(** How one pass through the body of the retry loop ends. *)
Inductive flow : Type := Next | Break | Return.

(** ** The package [src/agent] *)

Module AgentPkg.

Definition GLOBAL_CONTEXT_SUMMARY_INTERVAL : Z := 5.

(** [utils.parse_constraint] *)
Definition parse_constraint (constraint_str : string) : string * string :=
  match split_once ":" constraint_str with
  | Some (l, r) => (strip l, strip r)
  | None => ("generic", strip constraint_str)
  end.

(** [utils.handle_node_retryable_error]: [True] when the retries are
    used up. *)
Definition handle_node_retryable_error (nid : string) (attempt : nat) (e : exn) : M bool :=
  if attempt <? MAX_RETRIES - 1 then
    sleep RETRY_DELAY ;; ret false
  else
    modify (update_node nid
              (fun n => set_error_message
                          ("Error after " +:+ str_of_Z (Z.of_nat MAX_RETRIES) +:+ " attempts: "
                           +:+ exn_str e)
                          (set_status "failed" n))) ;;
    ret true.

Definition code_block_pattern : string := "```(?:json)?\s*([\s\S]*?)\s*```".
Definition json_pattern : string :=
  "\{(?:[^{}]|(?:\{(?:[^{}]|(?:\{(?:[^{}])*\}))*\}))*\}".
Definition result_pattern : string :=
  "\{\s*\" +:+ dq +:+ "result\" +:+ dq +:+ "[\s\S]*?\}".
Definition subtasks_pattern : string :=
  "\{\s*\" +:+ dq +:+ "subtasks\" +:+ dq +:+ "[\s\S]*?\}".

Section WithEnv.
Context (env : Env).

(** [try: return json.loads(text) except json.JSONDecodeError: ...]:
    [Some v] when the function returns [v], [None] when the decoding
    error is swallowed; any other exception goes on. *)
Definition loads_or_skip (text : string) : result (option pyval) :=
  match json_loads env text with
  | Ok v => Ok (Some v)
  | Raise e => if String.eqb (exn_cls e) "JSONDecodeError" then Ok None else Raise e
  end.

Fixpoint first_loadable (candidates : list string) : result (option pyval) :=
  match candidates with
  | [] => Ok None
  | c :: rest =>
      match loads_or_skip c with
      | Ok None => first_loadable rest
      | r => r
      end
  end.

Definition search_and_load (pattern text : string) : result (option pyval) :=
  match re_search env pattern [] text with
  | Some m => loads_or_skip (nth 0 m EmptyString)
  | None => Ok None
  end.

(** [utils.extract_json_from_text]; [PNone] is Python's [None]. *)
Definition extract_json_from_text (text : string) : result pyval :=
  match first_loadable (re_findall env code_block_pattern [] text) with
  | Raise e => Raise e
  | Ok (Some v) => Ok v
  | Ok None =>
  match search_and_load json_pattern text with
  | Raise e => Raise e
  | Ok (Some v) => Ok v
  | Ok None =>
  match search_and_load result_pattern text with
  | Raise e => Raise e
  | Ok (Some v) => Ok v
  | Ok None =>
  match search_and_load subtasks_pattern text with
  | Raise e => Raise e
  | Ok (Some v) => Ok v
  | Ok None => Ok PNone
  end end end end.

(** [Node.build_prompt] *)
Definition build_prompt (nid : string) : M string :=
  let* s0 := get_session in
  let context := [global_context s0] in
  let* task := retrieve_from_memory nid "task" in
  let task_part := if truthy task then [PStr ("Task: " +:+ fmt env task)] else [] in
  let node := node_at s0 nid in
  let constraint_part :=
    match constraints s0 !! node_id node with
    | Some (c :: cs) =>
        PStr "Constraints:" :: ((fun x => PStr ("- " +:+ x)) <$> (c :: cs))
    | _ => []
    end in
  let parent_part :=
    match parent_id node with
    | Some p =>
        if truthy (PStr p) then
          match node_lookup s0 !! p with
          | Some parent_node =>
              if truthy (PStr (output parent_node)) then
                [PStr ("Output from Parent Node (" +:+ str_take 8 (node_id parent_node)
                       +:+ "...): " +:+ output parent_node)]
              else []
          | None => []
          end
        else []
    | None => []
    end in
  let* guidance := retrieve_from_memory nid "regeneration_guidance" in
  let guidance_part :=
    if truthy guidance then [PStr ("Regeneration Guidance: " +:+ fmt env guidance)] else [] in
  lift_result
    (py_join (nl +:+ nl)
       (context ++ task_part ++ constraint_part ++ parent_part ++ guidance_part)).

(** One pass of [for subtask in parsed_output["subtasks"]]. *)
Definition create_subtask (nid : string) (subtask : pyval) : M unit :=
  match subtask with
  | PStr _ => modify (_create_child_node env nid subtask)
  | PDict d =>
      match dict_get d "task_description" with
      | Some description => modify (_create_child_node env nid description)
      | None => ret tt
      end
  | _ => ret tt
  end.

(** [Node.process_llm_output] *)
Definition process_llm_output (nid : string) (llm_output : string) : M unit :=
  try_except
    (let* parsed_output := lift_result (extract_json_from_text llm_output) in
     if truthy parsed_output then
       let* has_subtasks := lift_result (py_in "subtasks" parsed_output) in
       let* subtasks :=
         (if has_subtasks then lift_result (py_getitem parsed_output "subtasks")
          else ret PNone) in
       match has_subtasks, subtasks with
       | true, PList entries => for_each entries (create_subtask nid)
       | _, _ =>
           let* has_result := lift_result (py_in "result" parsed_output) in
           if has_result then
             let* r := lift_result (py_getitem parsed_output "result") in
             store_in_memory nid "result" r
           else
             store_in_memory nid "result" parsed_output
       end
     else
       store_in_memory nid "result" (PStr llm_output))
    (fun e =>
       modify (update_node nid
                 (fun n => set_error_message ("Error processing LLM output: " +:+ exn_str e)
                             (set_status "failed" n)))).

Definition append_context (text : string) : M unit :=
  let* s := get_session in
  let* c := lift_result (py_add_str (global_context s) text) in
  modify (with_global_context c).

(** [AttentionMechanism._summarize_global_context] *)
Definition _summarize_global_context : M unit :=
  let* s := get_session in
  let prompt :=
    "Summarize the following global context into a concise JSON object with a single field "
    +:+ dq +:+ "summary" +:+ dq +:+ ":" +:+ nl +:+ nl +:+ fmt env (global_context s) in
  try_except
    (let* content := generate_content env prompt in
     let* summary_json := lift_result (json_loads env content) in
     let* summary :=
       lift_result (py_get summary_json "summary"
                      (PStr "Error: Could not summarize global context.")) in
     modify (with_global_context summary))
    (fun e => modify (with_global_context (PStr ("Error during summarization: " +:+ exn_str e)))).

(** [AttentionMechanism.summarize_node] *)
Definition summarize_node (nid : string) : M unit :=
  let* s := get_session in
  let node := node_at s nid in
  let prompt :=
    "Summarize the following task and its result concisely into a JSON object with two fields "
    +:+ dq +:+ "task_summary" +:+ dq +:+ " and " +:+ dq +:+ "result_summary" +:+ dq +:+ ":"
    +:+ nl +:+ nl +:+ "Task: " +:+ fmt env (task_description node)
    +:+ nl +:+ nl +:+ "Result: " +:+ output node +:+ nl in
  let head := nl +:+ "- Node " +:+ node_id node +:+ " (" +:+ status node +:+ "): " in
  try_except
    (let* content := generate_content env prompt in
     let* summary_json := lift_result (json_loads env content) in
     let* task_summary :=
       lift_result (py_get summary_json "task_summary" (PStr "Task summary not available.")) in
     let* result_summary :=
       lift_result (py_get summary_json "result_summary"
                      (PStr "Result summary not available.")) in
     append_context (head +:+ "Task: " +:+ fmt env task_summary
                     +:+ ", Result: " +:+ fmt env result_summary))
    (fun e => append_context (head +:+ "Error during summarization: " +:+ exn_str e)) ;;
  modify (fun s => with_execution_count (execution_count s + 1) s) ;;
  let* s' := get_session in
  if (execution_count s' mod GLOBAL_CONTEXT_SUMMARY_INTERVAL =? 0)%Z
  then _summarize_global_context
  else ret tt.

(** The body of the retry loop of [Agent._execute_node]. *)
Definition attempt_body (nid prompt : string) (attempt : nat) : M flow :=
  try_except
    (let* llm_output := generate_content env prompt in
     modify (update_node nid (set_output llm_output)) ;;
     process_llm_output nid llm_output ;;
     let* ok := check_constraints parse_constraint nid in
     if ok then ret Break else ret Return)
    (fun e =>
       let* exhausted := handle_node_retryable_error nid attempt e in
       if exhausted then ret Return else ret Next).

Fixpoint retry_loop (nid prompt : string) (attempts : list nat) : M flow :=
  match attempts with
  | [] => ret Next
  | attempt :: rest =>
      let* f := attempt_body nid prompt attempt in
      match f with
      | Next => retry_loop nid prompt rest
      | Break => ret Break
      | Return => ret Return
      end
  end.

(** [Agent._execute_node] *)
Definition _execute_node (nid : string) : M unit :=
  modify (update_node nid (set_status "running")) ;;
  let* prompt := build_prompt nid in
  let* f := retry_loop nid prompt (seq 0 MAX_RETRIES) in
  match f with
  | Return => ret tt
  | _ =>
      let* s := get_session in
      if String.eqb (status (node_at s nid)) "running" then
        modify (update_node nid (set_status "completed")) ;;
        match child_ids (node_at s nid) with
        | [] => summarize_node nid
        | _ => ret tt
        end
      else ret tt
  end.

(** [Agent._regenerate_node] *)
Definition _regenerate_node (nid : string) (regeneration_guidance : string) : M unit :=
  modify (update_node nid
            (fun n => set_error_message "" (set_output "" (set_status "pending" n)))) ;;
  modify (update_node nid
            (fun n =>
               match local_memory n with
               | LMObject _ => n
               | LMDict _ => set_local_memory (LMObject (mkLocalMemory (node_id n) ∅)) n
               end)) ;;
  store_in_memory nid "regeneration_guidance" (PStr regeneration_guidance).

(** [Agent.setup_agent] and [Agent.reset_agent]: the node table and the
    other entries of the session state are cleared and the three checkers
    are registered; the tracker's maps, the global context and the
    execution counter belong to the agent object and stay. *)
Definition setup_agent (s : Session) : Session :=
  with_constraint_checkers
    (fun reg => <["max_length" := _check_max_length]>
                  (<["contains" := _check_contains_word]>
                     (<["format" := _check_json_format env]> reg)))
    (with_node_lookup (fun _ => ∅) s).

Definition reset_agent (s : Session) : Session :=
  setup_agent (with_root_node_id None (with_node_lookup (fun _ => ∅) s)).

(** The document that [save_session] hands to [json.dump] and that
    [load_session] gets back from [json.load] (the serialisation in
    between is the JSON library's and is taken to give the document
    back).  Each entry of [doc_node_lookup] is the attribute dictionary of
    a node, with the plain dictionary under [local_memory]. *)
Record SessionDoc : Type := mkSessionDoc {
  doc_node_lookup : gmap string Node;
  doc_dependency_graph : gmap string (list string);
  doc_constraints : gmap string (list string);
  doc_root_node_id : string;
  doc_global_memory : pyval;
  doc_execution_count : Z
}.

(** [node_data["local_memory"] = node_data["local_memory"].local_memory]
    where [node_data] is the attribute dictionary of the live node held
    under [k]: the assignment changes the node itself. *)
Definition unwrap_local_memory (k : string) : M unit :=
  fun s =>
    match local_memory (node_at s k) with
    | LMObject m => (Ok tt, update_node k (set_local_memory (LMDict (mem_local_memory m))) s)
    | LMDict _ =>
        (Raise (Exception "AttributeError" "'dict' object has no attribute 'local_memory'"), s)
    end.

(** [Agent.save_session]: the dictionary [data] refers to the attribute
    dictionaries of the nodes of the table (no copy is made), the loop
    rewrites their [local_memory] entries, and the document is what
    these dictionaries hold afterwards. *)
Definition save_session : M SessionDoc :=
  let* s := get_session in
  let node_data_refs := (map_to_list (node_lookup s)).*1 in
  match root_node_id s with
  | None =>
      raise (Exception "AttributeError" "st.session_state has no attribute 'root_node_id'")
  | Some root =>
      for_each node_data_refs unwrap_local_memory ;;
      let* s' := get_session in
      ret (mkSessionDoc (node_lookup s') (dependency_graph s') (constraints s') root
             (global_context s') (execution_count s'))
  end.

(** The dictionary found under [local_memory] in a node's entry of the
    document. *)
Definition memory_dict (a : memory_attr) : gmap string pyval :=
  match a with
  | LMDict d => d
  | LMObject m => mem_local_memory m
  end.

(** The body of the loop of [load_session]: a new node is made (which
    draws an identifier), its attributes are overwritten from the
    document, and it is put into the table under the key of the entry. *)
Definition load_node (entry : string * Node) : M unit :=
  fun s =>
    let '(key, node_data) := entry in
    let '(new_node, s1) :=
      Node_init env (parent_id node_data) (task_description node_data) (depth node_data) s in
    let loaded :=
      mkNode (node_id node_data) (depth new_node)
        (LMObject (mkLocalMemory (node_id node_data) (memory_dict (local_memory node_data))))
        (parent_id new_node) (child_ids node_data) (status node_data) (output node_data)
        (error_message node_data) (task_description new_node) in
    (Ok tt, with_node_lookup (insert key loaded) s1).

(** [Agent.load_session] *)
Definition load_session (data : SessionDoc) : M unit :=
  modify reset_agent ;;
  modify (with_root_node_id (Some (doc_root_node_id data))) ;;
  modify (with_node_lookup (fun _ => ∅)) ;;
  for_each (map_to_list (doc_node_lookup data)) load_node ;;
  modify (with_dependency_graph (fun _ => doc_dependency_graph data)) ;;
  modify (with_constraints (fun _ => doc_constraints data)) ;;
  modify (with_global_context (doc_global_memory data)) ;;
  modify (with_execution_count (doc_execution_count data)).

(** [Agent.agentFlow] *)
Definition agentFlow (fuel : nat) (action : string) (nid : string)
    (regeneration_guidance : string) : M unit :=
  if String.eqb action "execute" then _execute_node nid
  else if String.eqb action "regenerate" then _regenerate_node nid regeneration_guidance
  else if String.eqb action "delete" then
    fun s => match delete_node_and_children fuel (node_at s nid) s with
             | Some s' => (Ok tt, s')
             | None => (Raise (Exception "RecursionError" "maximum recursion depth exceeded"), s)
             end
  else raise (Exception "ValueError" ("Invalid action: " +:+ action)).

End WithEnv.

End AgentPkg.

(** The checker calls [check_constraints] would make on the list [cs] if
    no checker failed: one per constraint whose type is registered, in
    the order of the list. *)
Definition checker_calls (parse : string -> string * string)
    (registry : gmap string ConstraintChecker) (cs : list string) : list Event :=
  omap (fun c => match registry !! (parse c).1 with
                 | Some _ => Some (EvChecker (parse c).1 (parse c).2)
                 | None => None
                 end) cs.

(** A session of [agent] with one node, whose output is given and which
    carries the constraints [max_length:5] and [contains:x]. *)
Definition session_checked (out : string) : Session :=
  update_node "0" (set_output out)
    (run_ops (env_ex gateway_down) (AgentPkg.setup_agent (env_ex gateway_down) session0)
       [CreateRoot "write a letter" ["max_length:5"; "contains:x"]]).

(** ** The package [src/components]: what differs from [agent] in the
    utilities *)

Module Components.

Definition GLOBAL_CONTEXT_SUMMARY_INTERVAL : Z := 10.

(** [utils.parse_constraint]: the dictionary with the keys [type] and
    [value], as the pair of its two values.  A string that holds a colon
    splits in two, so the unpacking of the source cannot fail. *)
Definition parse_constraint (constraint : string) : string * string :=
  if str_contains ":" constraint then
    match split_once ":" constraint with
    | Some (constraint_type, value) => (strip constraint_type, strip value)
    | None => (constraint, EmptyString)
    end
  else (constraint, EmptyString).

(** [utils.handle_node_retryable_error] *)
Definition handle_node_retryable_error (nid : string) (attempt : nat) (e : exn) : M bool :=
  if attempt <? MAX_RETRIES - 1 then
    modify (update_node nid
              (set_error_message
                 ("Error (attempt " +:+ str_of_Z (Z.of_nat (attempt + 1)) +:+ "): "
                  +:+ exn_str e +:+ ". Retrying..."))) ;;
    sleep RETRY_DELAY ;;
    ret false
  else
    modify (update_node nid
              (fun n => set_error_message ("Max retries reached. Last error: " +:+ exn_str e)
                          (set_status STATUS_FAILED n))) ;;
    ret true.

End Components.

(** The prompt of node 1 of [session_tree]: the global context and the
    task (the node has no constraint, its parent no output yet). *)
Definition prompt_1 : string :=
  "This agent decomposes complex tasks." +:+ nl +:+ nl +:+ "Task: layout".

(** A gateway that answers every call with the same text. *)
Definition gateway_says (text : string) : nat -> string -> result string :=
  fun _ _ => Ok text.

(** The prompt of node 0 of [session_checked]. *)
Definition prompt_0 : string :=
  "This agent decomposes complex tasks." +:+ nl +:+ nl +:+ "Task: write a letter"
  +:+ nl +:+ nl +:+ "Constraints:" +:+ nl +:+ nl +:+ "- max_length:5"
  +:+ nl +:+ nl +:+ "- contains:x".

(** [session_tree] once [run] has recorded the root. *)
Definition session_rooted : Session := with_root_node_id (Some "0") session_tree.

(** ** More of the tracker ([attention_mechanism.py], both packages) *)

(** [AttentionMechanism.update_constraint]: the index is a Python
    integer; the guard of the source lets only an index of the list
    through. *)
Definition update_constraint (nid : string) (constraint_index : Z) (new_constraint : string)
    (s : Session) : Session :=
  match constraints s !! nid with
  | Some l =>
      if ((0 <=? constraint_index) && (constraint_index <? Z.of_nat (List.length l)))%Z
      then with_constraints
             (insert nid (<[Z.to_nat constraint_index := new_constraint]> l)) s
      else s
  | None => s
  end.

(** [AttentionMechanism.remove_constraint] *)
Definition remove_constraint (nid : string) (constraint_index : Z) (s : Session) : Session :=
  match constraints s !! nid with
  | Some l =>
      if ((0 <=? constraint_index) && (constraint_index <? Z.of_nat (List.length l)))%Z
      then with_constraints (insert nid (delete (Z.to_nat constraint_index) l)) s
      else s
  | None => s
  end.

(** [AttentionMechanism.propagate_constraints] *)
Definition propagate_to_child (parent_constraints : list string) (s : Session)
    (child_id : string) : Session :=
  foldl (fun acc constraint =>
           if bool_decide (constraint ∈ get_constraints child_id acc) then acc
           else add_constraint child_id constraint acc)
        s parent_constraints.

Definition propagate_constraints (parent_node_id : string) (s : Session) : Session :=
  let parent_constraints := get_constraints parent_node_id s in
  match node_lookup s !! parent_node_id with
  | Some parent => foldl (propagate_to_child parent_constraints) s (child_ids parent)
  | None => s
  end.

(** ** [utils.handle_retryable_error] (same text in both packages)

    [func] is any callable; [remaining] is [MAX_RETRIES - retries], the
    number of passes the [while] loop can still make.  The statement
    after the loop is reached only when no pass is left. *)
Fixpoint retry_while {A} (func : M A) (remaining : nat) : M A :=
  match remaining with
  | O => raise (Exception "RuntimeError" "Unexpected error in handle_retryable_error")
  | S r =>
      try_except func
        (fun e => match r with
                  | O => raise e
                  | S _ => sleep RETRY_DELAY ;; retry_while func r
                  end)
  end.

Definition handle_retryable_error {A} (func : M A) : M A := retry_while func MAX_RETRIES.

(** The task description [process_llm_output] takes from an entry of the
    [subtasks] list: the entry itself when it is a string, the value of
    [task_description] when it is an object that has one. *)
Definition subtask_description (entry : pyval) : option pyval :=
  match entry with
  | PStr _ => Some entry
  | PDict d => dict_get d "task_description"
  | _ => None
  end.

(** An answer of the gateway that lists two subtasks. *)
Definition text_subtasks : string :=
  "{" +:+ dq +:+ "subtasks" +:+ dq +:+ ": [" +:+ dq +:+ "a" +:+ dq +:+ ", "
  +:+ dq +:+ "b" +:+ dq +:+ "]}".

(** * Properties *)

Arguments add_dependency : simpl never.
Arguments add_constraint : simpl never.
Arguments remove_node : simpl never.

(** ** Frame lemmas of the tracker *)

Lemma add_dependency_node_lookup a b s :
  node_lookup (add_dependency a b s) = node_lookup s.
Proof.
  unfold add_dependency.
  destruct (dependency_graph s !! a); destruct b; simpl; try reflexivity;
    match goal with |- context [if ?c then _ else _] => destruct c end; reflexivity.
Qed.

Lemma add_dependency_uuid_count a b s :
  uuid_count (add_dependency a b s) = uuid_count s.
Proof.
  unfold add_dependency.
  destruct (dependency_graph s !! a); destruct b; simpl; try reflexivity;
    match goal with |- context [if ?c then _ else _] => destruct c end; reflexivity.
Qed.

Lemma add_constraint_node_lookup a c s :
  node_lookup (add_constraint a c s) = node_lookup s.
Proof.
  unfold add_constraint.
  destruct (constraints s !! a); simpl;
    match goal with |- context [if ?c then _ else _] => destruct c end; reflexivity.
Qed.

Lemma add_constraint_uuid_count a c s :
  uuid_count (add_constraint a c s) = uuid_count s.
Proof.
  unfold add_constraint.
  destruct (constraints s !! a); simpl;
    match goal with |- context [if ?c then _ else _] => destruct c end; reflexivity.
Qed.

Lemma add_constraints_frame nid cs s :
  let s' := foldl (fun acc c => add_constraint nid c acc) s cs in
  node_lookup s' = node_lookup s /\ uuid_count s' = uuid_count s.
Proof.
  revert s. induction cs as [|c cs IH]; intros s; simpl; [done|].
  destruct (IH (add_constraint nid c s)) as [H1 H2]. simpl in H1, H2.
  rewrite H1, H2, add_constraint_node_lookup, add_constraint_uuid_count. done.
Qed.

Lemma add_child_fields c n :
  node_id (add_child c n) = node_id n /\ depth (add_child c n) = depth n
  /\ parent_id (add_child c n) = parent_id n.
Proof. unfold add_child. case_bool_decide; done. Qed.

Lemma add_child_elem c n x :
  x ∈ child_ids (add_child c n) <-> x ∈ child_ids n \/ x = c.
Proof.
  unfold add_child. case_bool_decide; simpl.
  - split; [auto|]. intros [?| ->]; done.
  - rewrite elem_of_app, list_elem_of_singleton. done.
Qed.

(** ** The depth invariant of the creation operations *)

Section TreeInvariant.
Context (env : Env) (uuid4_inj : forall i j, uuid4 env i = uuid4 env j -> i = j).

Lemma fresh_uuid s :
  tree_inv env s -> node_lookup s !! uuid4 env (uuid_count s) = None.
Proof.
  intros (Hk & _ & _).
  destruct (node_lookup s !! uuid4 env (uuid_count s)) as [n|] eqn:E; [|done].
  destruct (Hk _ _ E) as [_ (j & Hj & Heq)]. apply uuid4_inj in Heq. lia.
Qed.

Lemma create_root_node_spec task cs s :
  node_lookup (snd (create_root_node env task cs s))
  = <[uuid4 env (uuid_count s) := fst (create_root_node env task cs s)]> (node_lookup s)
  /\ uuid_count (snd (create_root_node env task cs s)) = S (uuid_count s)
  /\ node_id (fst (create_root_node env task cs s)) = uuid4 env (uuid_count s)
  /\ depth (fst (create_root_node env task cs s)) = 0%Z
  /\ parent_id (fst (create_root_node env task cs s)) = None
  /\ child_ids (fst (create_root_node env task cs s)) = [].
Proof.
  unfold create_root_node, Node_init, track_dependencies. simpl.
  rewrite add_dependency_node_lookup, add_dependency_uuid_count.
  match goal with |- context [foldl ?f ?a ?l] =>
    destruct (add_constraints_frame (uuid4 env (uuid_count s)) l a) as [H1 H2] end.
  simpl in H1, H2. rewrite H1, H2. simpl. done.
Qed.

Lemma create_root_node_inv task cs s :
  tree_inv env s -> tree_inv env (snd (create_root_node env task cs s)).
Proof.
  intros Hinv. pose proof (fresh_uuid s Hinv) as Hfresh.
  destruct Hinv as (Hk & Hp & Hc & Hb).
  destruct (create_root_node_spec task cs s) as (Ht & Hu & Hid & Hd & Hpar & Hch).
  set (new := fst (create_root_node env task cs s)) in *.
  set (s' := snd (create_root_node env task cs s)) in *.
  set (k0 := uuid4 env (uuid_count s)) in *.
  assert (Hold : forall k n, node_lookup s !! k = Some n -> node_lookup s' !! k = Some n).
  { intros k n Hkn. rewrite Ht, lookup_insert_ne; [done|]. intros ->. congruence. }
  repeat split.
  - rewrite Ht in H. destruct (decide (k0 = k)) as [<-|Hne].
    + rewrite lookup_insert_eq in H. congruence.
    + rewrite lookup_insert_ne in H by done. by apply Hk in H as [? _].
  - rewrite Ht in H. rewrite Hu. destruct (decide (k0 = k)) as [<-|Hne].
    + exists (uuid_count s). split; [lia|done].
    + rewrite lookup_insert_ne in H by done.
      apply Hk in H as [_ (j & ? & ?)]. exists j. split; [lia|done].
  - intros k n Hkn. rewrite Ht in Hkn. destruct (decide (k0 = k)) as [<-|Hne].
    + rewrite lookup_insert_eq in Hkn. injection Hkn as <-. by rewrite Hpar.
    + rewrite lookup_insert_ne in Hkn by done. specialize (Hp _ _ Hkn).
      destruct (parent_id n) as [p|]; [|done].
      destruct Hp as (pn & Hpn & Hdep). exists pn. split; [by apply Hold|done].
  - intros k n c Hkn Hin. rewrite Ht in Hkn. destruct (decide (k0 = k)) as [<-|Hne].
    + rewrite lookup_insert_eq in Hkn. injection Hkn as <-. rewrite Hch in Hin.
      by apply elem_of_nil in Hin.
    + rewrite lookup_insert_ne in Hkn by done.
      destruct (Hc _ _ _ Hkn Hin) as (cn & Hcn & ? & ?). exists cn.
      split; [by apply Hold|done].
  - rewrite Ht in H. destruct (decide (k0 = k)) as [<-|Hne].
    + rewrite lookup_insert_eq in H. injection H as <-. lia.
    + rewrite lookup_insert_ne in H by done. apply Hb in H. lia.
  - rewrite Ht in H. rewrite Hu. destruct (decide (k0 = k)) as [<-|Hne].
    + rewrite lookup_insert_eq in H. injection H as <-. lia.
    + rewrite lookup_insert_ne in H by done. apply Hb in H. lia.
Qed.

Lemma create_child_node_spec parent task d s pn :
  node_lookup s !! parent = Some pn ->
  let new := fst (create_child_node env parent task d s) in
  let s' := snd (create_child_node env parent task d s) in
  node_lookup s'
  = alter (add_child (uuid4 env (uuid_count s))) parent
      (<[uuid4 env (uuid_count s) := new]> (node_lookup s))
  /\ uuid_count s' = S (uuid_count s)
  /\ node_id new = uuid4 env (uuid_count s)
  /\ depth new = d
  /\ parent_id new = Some (node_id pn)
  /\ child_ids new = [].
Proof.
  intros Hpn. unfold create_child_node, Node_init, track_dependencies, node_at.
  rewrite Hpn. simpl.
  rewrite add_dependency_node_lookup, add_dependency_uuid_count. simpl. done.
Qed.

Lemma create_child_inv parent task s pn :
  tree_inv env s -> node_lookup s !! parent = Some pn ->
  tree_inv env (_create_child_node env parent task s).
Proof.
  intros Hinv Hpn. pose proof (fresh_uuid s Hinv) as Hfresh.
  destruct Hinv as (Hk & Hp & Hc & Hb). unfold _create_child_node.
  assert (node_at s parent = pn) as -> by (unfold node_at; by rewrite Hpn).
  destruct (create_child_node_spec parent task (depth pn + 1) s pn Hpn)
    as (Ht & Hu & Hid & Hd & Hpar & Hch).
  set (new := fst (create_child_node env parent task (depth pn + 1) s)) in *.
  set (s' := snd (create_child_node env parent task (depth pn + 1) s)) in *.
  set (k0 := uuid4 env (uuid_count s)) in *.
  assert (Hpk : node_id pn = parent) by (by apply Hk in Hpn as [? _]).
  assert (Hne0 : parent <> k0) by (intros ->; congruence).
  (* every node of the new table: the new node, the parent with one more
     child, or an old node *)
  assert (Hnew : node_lookup s' !! k0 = Some new).
  { rewrite Ht, lookup_alter_ne, lookup_insert_eq; done. }
  assert (Hcases : forall k n, node_lookup s' !! k = Some n ->
            (k = k0 /\ n = new) \/
            (k <> k0 /\ exists n0, node_lookup s !! k = Some n0 /\ node_id n = node_id n0
                     /\ depth n = depth n0 /\ parent_id n = parent_id n0
                     /\ (forall c, c ∈ child_ids n ->
                           c ∈ child_ids n0 \/ (k = parent /\ c = k0)))).
  { intros k n Hkn. rewrite Ht in Hkn. destruct (decide (k = k0)) as [->|Hne].
    - left. rewrite lookup_alter_ne, lookup_insert_eq in Hkn by done.
      split; [done|congruence].
    - right. split; [done|]. destruct (decide (k = parent)) as [->|Hnp].
      + rewrite lookup_alter_eq, lookup_insert_ne, Hpn in Hkn by done.
        simpl in Hkn. injection Hkn as <-. exists pn.
        destruct (add_child_fields k0 pn) as (? & ? & ?).
        repeat split; try done. intros c Hin. apply add_child_elem in Hin.
        destruct Hin; auto.
      + rewrite lookup_alter_ne, lookup_insert_ne in Hkn by done.
        exists n. repeat split; auto. }
  assert (Hold : forall k n0, node_lookup s !! k = Some n0 ->
            exists n, node_lookup s' !! k = Some n /\ depth n = depth n0
                      /\ parent_id n = parent_id n0).
  { intros k n0 Hkn. assert (k <> k0) by (intros ->; congruence).
    rewrite Ht. destruct (decide (k = parent)) as [->|Hnp].
    - rewrite lookup_alter_eq, lookup_insert_ne, Hkn by done. simpl.
      eexists. split; [done|]. destruct (add_child_fields k0 n0) as (? & ? & ?). done.
    - rewrite lookup_alter_ne, lookup_insert_ne by done. eauto. }
  repeat split.
  - destruct (Hcases _ _ H) as [[-> ->]|(Hne & n0 & Hn0 & Hi & _)]; [done|].
    rewrite Hi. by apply Hk in Hn0 as [? _].
  - rewrite Hu. destruct (Hcases _ _ H) as [[-> ->]|(Hne & n0 & Hn0 & _)].
    + exists (uuid_count s). split; [lia|done].
    + apply Hk in Hn0 as [_ (j & ? & ?)]. exists j. split; [lia|done].
  - intros k n Hkn.
    destruct (Hcases _ _ Hkn) as [[-> ->]|(Hne & n0 & Hn0 & _ & Hdn & Hpn' & _)].
    + rewrite Hpar, Hpk. destruct (Hold _ _ Hpn) as (pn' & Hl & Hdp & _).
      exists pn'. split; [done|]. rewrite Hd, Hdp. done.
    + rewrite Hpn', Hdn. specialize (Hp _ _ Hn0).
      destruct (parent_id n0) as [p|]; [|done].
      destruct Hp as (q & Hq & Hdq). destruct (Hold _ _ Hq) as (q' & Hq' & Hdq' & _).
      exists q'. split; [done|]. rewrite Hdq'. done.
  - intros k n c Hkn Hin.
    destruct (Hcases _ _ Hkn) as [[-> ->]|(Hne & n0 & Hn0 & _ & Hdn & _ & Hch')].
    + rewrite Hch in Hin. by apply elem_of_nil in Hin.
    + destruct (Hch' _ Hin) as [Hin0|[-> ->]].
      * destruct (Hc _ _ _ Hn0 Hin0) as (cn & Hcn & Hcp & Hcd).
        destruct (Hold _ _ Hcn) as (cn' & Hcn' & Hd' & Hp').
        exists cn'. split; [done|]. rewrite Hp', Hd', Hdn. done.
      * exists new. split; [done|]. rewrite Hpar, Hpk, Hd, Hdn.
        rewrite Hpn in Hn0. injection Hn0 as <-. done.
  - destruct (Hcases _ _ H) as [[-> ->]|(Hne & n0 & Hn0 & _ & Hdn & _)].
    + rewrite Hd. apply Hb in Hpn. lia.
    + rewrite Hdn. apply Hb in Hn0. lia.
  - rewrite Hu. destruct (Hcases _ _ H) as [[-> ->]|(Hne & n0 & Hn0 & _ & Hdn & _)].
    + rewrite Hd. apply Hb in Hpn. lia.
    + rewrite Hdn. apply Hb in Hn0. lia.
Qed.

Lemma run_op_inv s o : tree_inv env s -> tree_inv env (run_op env s o).
Proof.
  intros Hinv. destruct o as [task cs|parent task]; simpl.
  - by apply create_root_node_inv.
  - destruct (node_lookup s !! parent) as [pn|] eqn:E; [|done].
    by eapply create_child_inv.
Qed.

Lemma run_ops_inv s ops : tree_inv env s -> tree_inv env (run_ops env s ops).
Proof.
  revert s. induction ops as [|o ops IH]; intros s Hinv; simpl; [done|].
  apply IH. by apply run_op_inv.
Qed.

Lemma empty_table_inv s : node_lookup s = ∅ -> tree_inv env s.
Proof.
  intros He. unfold tree_inv. rewrite He.
  repeat split; intros; by rewrite lookup_empty in *.
Qed.

End TreeInvariant.

(** C1.  Tree depth invariant.  Start from a session with an empty node
    table and run any sequence of create-root / create-child operations
    (identifiers handed out by [uuid4] are never repeated).  Then in the
    node table: every node without a parent (a root made by
    [create_root_node]) has depth 0; every node with a parent has that
    parent in the table and sits at the parent's depth plus one; and
    every child link of a node leads to a node of the table that names it
    as parent and sits at its depth plus one. *)
Theorem depth_invariant_of_created_trees (env : Env) (s0 : Session) (ops : list tree_op) :
  (forall i j, uuid4 env i = uuid4 env j -> i = j) ->
  node_lookup s0 = ∅ ->
  let s := run_ops env s0 ops in
  (forall task cs s1, depth (fst (create_root_node env task cs s1)) = 0%Z) /\
  (forall k n, node_lookup s !! k = Some n -> parent_id n = None -> depth n = 0%Z) /\
  (forall k n p, node_lookup s !! k = Some n -> parent_id n = Some p ->
     exists pn, node_lookup s !! p = Some pn /\ depth n = (depth pn + 1)%Z) /\
  (forall k n c, node_lookup s !! k = Some n -> c ∈ child_ids n ->
     exists cn, node_lookup s !! c = Some cn /\ parent_id cn = Some k
                /\ depth cn = (depth n + 1)%Z).
Proof.
  intros Hinj Hempty s.
  assert (Hinv : tree_inv env s).
  { apply run_ops_inv; [done|]. by apply empty_table_inv. }
  destruct Hinv as (_ & Hp & Hc & _). split; [done|]. repeat split.
  - intros k n Hkn Hpar. specialize (Hp _ _ Hkn). by rewrite Hpar in Hp.
  - intros k n p Hkn Hpar. specialize (Hp _ _ Hkn). by rewrite Hpar in Hp.
  - done.
Qed.

Lemma depth_invariant_of_created_trees_witness :
  let s := run_ops (env_ex gateway_down) session0
             [CreateRoot "build a site" ["code"]; CreateChild "0" "layout";
              CreateChild "0" "styles"; CreateChild "1" "header"] in
  (forall task cs s1, depth (fst (create_root_node (env_ex gateway_down) task cs s1)) = 0%Z) /\
  (forall k n, node_lookup s !! k = Some n -> parent_id n = None -> depth n = 0%Z) /\
  (forall k n p, node_lookup s !! k = Some n -> parent_id n = Some p ->
     exists pn, node_lookup s !! p = Some pn /\ depth n = (depth pn + 1)%Z) /\
  (forall k n c, node_lookup s !! k = Some n -> c ∈ child_ids n ->
     exists cn, node_lookup s !! c = Some cn /\ parent_id cn = Some k
                /\ depth cn = (depth n + 1)%Z).
Proof.
  apply (depth_invariant_of_created_trees (env_ex gateway_down) session0).
  - intros i j H. simpl in H. by apply (inj pretty) in H.
  - reflexivity.
Defined.

Example created_tree_depths :
  let s := run_ops (env_ex gateway_down) session0
             [CreateRoot "build a site" ["code"]; CreateChild "0" "layout";
              CreateChild "0" "styles"; CreateChild "1" "header"] in
  (fun k => depth <$> node_lookup s !! k) <$> ["0"; "1"; "2"; "3"]
  = [Some 0%Z; Some 1%Z; Some 1%Z; Some 2%Z]
  /\ child_ids <$> node_lookup s !! "0" = Some ["1"; "2"]
  /\ dependency_graph s !! "3" = Some ["1"].
Proof. vm_compute. done. Qed.

(** ** Recursive deletion *)

Lemma list_remove_elem x y l : x ∈ list_remove y l -> x ∈ l.
Proof.
  induction l as [|z l IH]; simpl; [done|].
  case_decide; [by constructor|]. rewrite !elem_of_cons. intros [?|?]; auto.
Qed.

Lemma list_remove_NoDup y l : NoDup l -> NoDup (list_remove y l).
Proof.
  induction 1 as [|z l Hz Hl IH]; simpl; [constructor|].
  case_decide; [done|]. constructor; [|done].
  intros Hin. by apply list_remove_elem in Hin.
Qed.

Lemma list_remove_gone y l : NoDup l -> y ∉ list_remove y l.
Proof.
  induction 1 as [|z l Hz Hl IH]; simpl; [apply not_elem_of_nil|].
  case_decide; [by subst|]. rewrite not_elem_of_cons. done.
Qed.

Lemma remove_node_node_lookup y s : node_lookup (remove_node y s) = node_lookup s.
Proof. reflexivity. Qed.

Lemma remove_node_constraints y s : constraints (remove_node y s) = delete y (constraints s).
Proof. reflexivity. Qed.

Lemma remove_node_dependency_graph y s k :
  dependency_graph (remove_node y s) !! k
  = (fun sources => if bool_decide (y ∈ sources) then list_remove y sources else sources)
      <$> (delete y (dependency_graph s) !! k).
Proof. unfold remove_node. simpl. by rewrite lookup_fmap. Qed.

Lemma remove_node_list y s k l :
  dependency_graph (remove_node y s) !! k = Some l ->
  exists l0, dependency_graph s !! k = Some l0 /\ k <> y
             /\ l = (if bool_decide (y ∈ l0) then list_remove y l0 else l0).
Proof.
  rewrite remove_node_dependency_graph. destruct (decide (k = y)) as [->|Hne].
  - by rewrite lookup_delete_eq.
  - rewrite lookup_delete_ne by done.
    destruct (dependency_graph s !! k) as [l0|]; simpl; [|done].
    intros [= <-]. eauto.
Qed.

Lemma remove_node_tracker_free x y s :
  tracker_free x s -> tracker_free x (remove_node y s).
Proof.
  intros (Hd & Hc & Hl). repeat split.
  - rewrite remove_node_dependency_graph. destruct (decide (x = y)) as [->|Hne].
    + by rewrite lookup_delete_eq.
    + by rewrite lookup_delete_ne, Hd.
  - rewrite remove_node_constraints. destruct (decide (x = y)) as [->|Hne].
    + by rewrite lookup_delete_eq.
    + by rewrite lookup_delete_ne.
  - intros k l Hk. apply remove_node_list in Hk as (l0 & Hl0 & _ & ->).
    specialize (Hl _ _ Hl0). case_bool_decide; [|done].
    intros Hin. by apply list_remove_elem in Hin.
Qed.

Lemma remove_node_self_free y s :
  (forall k l, dependency_graph s !! k = Some l -> NoDup l) ->
  tracker_free y (remove_node y s).
Proof.
  intros Hnd. repeat split.
  - by rewrite remove_node_dependency_graph, lookup_delete_eq.
  - by rewrite remove_node_constraints, lookup_delete_eq.
  - intros k l Hk. apply remove_node_list in Hk as (l0 & Hl0 & _ & ->).
    case_bool_decide; [|done]. apply list_remove_gone. eauto.
Qed.

Lemma remove_node_NoDup y s :
  (forall k l, dependency_graph s !! k = Some l -> NoDup l) ->
  forall k l, dependency_graph (remove_node y s) !! k = Some l -> NoDup l.
Proof.
  intros Hnd k l Hk. apply remove_node_list in Hk as (l0 & Hl0 & _ & ->).
  case_bool_decide; [apply list_remove_NoDup|]; eauto.
Qed.

Section Deletion.
Context (t0 : gmap string Node) (rk : string -> nat).
Context (keys_ok : forall k n, t0 !! k = Some n -> node_id n = k).
Context (ranked : forall k n c cn,
  t0 !! k = Some n -> c ∈ child_ids n -> t0 !! c = Some cn -> rk c < rk k).

Lemma delete_step node s2 :
  deleting t0 s2 -> t0 !! node_id node = Some node ->
  (forall c, c ∈ child_ids node -> node_lookup s2 !! c = None) ->
  let s' := remove_node (node_id node) (with_node_lookup (delete (node_id node)) s2) in
  deleting t0 s' /\ node_lookup s' !! node_id node = None
  /\ (forall k, node_lookup s2 !! k = None -> node_lookup s' !! k = None).
Proof.
  intros (Ha & Hb & Hc & Hd) Hnode Hch s'.
  assert (Ht : node_lookup s' = delete (node_id node) (node_lookup s2)) by reflexivity.
  assert (Hmono : forall k, node_lookup s2 !! k = None -> node_lookup s' !! k = None).
  { intros k Hk. rewrite Ht. destruct (decide (k = node_id node)) as [->|?].
    - apply lookup_delete_eq.
    - by rewrite lookup_delete_ne. }
  assert (Hcase : forall x, node_lookup s' !! x = None ->
            x = node_id node \/ node_lookup s2 !! x = None).
  { intros x Hx. rewrite Ht in Hx. destruct (decide (x = node_id node)) as [->|?]; [by left|].
    right. by rewrite lookup_delete_ne in Hx. }
  split; [|split; [|done]].
  - repeat split.
    + intros k n Hk. rewrite Ht in Hk. apply lookup_delete_Some in Hk as [_ Hk]. eauto.
    + intros x xn c Hx Hnone Hin. destruct (Hcase _ Hnone) as [->|Hx2].
      * rewrite Hnode in Hx. injection Hx as <-. auto.
      * eauto.
    + destruct (Hcase _ H0) as [->|Hx2].
      * by apply (remove_node_self_free (node_id node)
                    (with_node_lookup (delete (node_id node)) s2)).
      * apply (remove_node_tracker_free x (node_id node)
                 (with_node_lookup (delete (node_id node)) s2)).
        by apply (Hc x).
    + destruct (Hcase _ H0) as [->|Hx2].
      * by apply (remove_node_self_free (node_id node)
                    (with_node_lookup (delete (node_id node)) s2)).
      * apply (remove_node_tracker_free x (node_id node)
                 (with_node_lookup (delete (node_id node)) s2)).
        by apply (Hc x).
    + destruct (Hcase _ H0) as [->|Hx2].
      * by apply (remove_node_self_free (node_id node)
                    (with_node_lookup (delete (node_id node)) s2)).
      * apply (remove_node_tracker_free x (node_id node)
                 (with_node_lookup (delete (node_id node)) s2)).
        by apply (Hc x).
    + apply (remove_node_NoDup (node_id node) (with_node_lookup (delete (node_id node)) s2)).
      exact Hd.
  - rewrite Ht. apply lookup_delete_eq.
Qed.

Lemma delete_node_and_children_deleting fuel : forall node s,
  deleting t0 s -> t0 !! node_id node = Some node -> rk (node_id node) < fuel ->
  exists s', delete_node_and_children fuel node s = Some s' /\ deleting t0 s'
             /\ node_lookup s' !! node_id node = None
             /\ (forall k, node_lookup s !! k = None -> node_lookup s' !! k = None).
Proof.
  induction fuel as [|fuel IH]; intros node s Hdel Hnode Hrk; [lia|].
  simpl.
  set (visit := fun (acc : option Session) (child_id : string) =>
                  match acc with
                  | Some s1 =>
                      match node_lookup s1 !! child_id with
                      | Some child => delete_node_and_children fuel child s1
                      | None => Some s1
                      end
                  | None => None
                  end).
  assert (Hloop : forall l s1,
            (forall c, c ∈ l -> c ∈ child_ids node) -> deleting t0 s1 ->
            exists s2, foldl visit (Some s1) l = Some s2 /\ deleting t0 s2
                       /\ (forall c, c ∈ l -> node_lookup s2 !! c = None)
                       /\ (forall k, node_lookup s1 !! k = None -> node_lookup s2 !! k = None)).
  { induction l as [|c l IHl]; intros s1 Hsub Hdel1.
    - exists s1. split; [done|]. split; [done|]. split; [|done].
      intros c Hc. by apply elem_of_nil in Hc.
    - change (foldl visit (Some s1) (c :: l)) with (foldl visit (visit (Some s1) c) l).
      assert (Hfirst : exists s1', visit (Some s1) c = Some s1' /\ deleting t0 s1'
                         /\ node_lookup s1' !! c = None
                         /\ (forall k, node_lookup s1 !! k = None -> node_lookup s1' !! k = None)).
      { unfold visit. destruct (node_lookup s1 !! c) as [child|] eqn:Ec.
        - destruct Hdel1 as (Ha & ?). pose proof (Ha _ _ Ec) as Hc0.
          pose proof (keys_ok _ _ Hc0) as Hid.
          destruct (IH child s1) as (s1' & Hs1' & Hd' & Hn' & Hm').
          + done.
          + by rewrite Hid.
          + rewrite Hid. assert (rk c < rk (node_id node)); [|lia].
            eapply ranked; eauto. apply Hsub. by left.
          + exists s1'. rewrite Hid in Hn'. done.
        - exists s1. done. }
      destruct Hfirst as (s1' & Hv & Hd' & Hn' & Hm').
      rewrite Hv. destruct (IHl s1') as (s2 & Hs2 & Hd2 & Hn2 & Hm2).
      + intros c' Hc'. apply Hsub. by right.
      + done.
      + exists s2. split; [done|]. split; [done|]. split.
        * intros c' Hc'. apply elem_of_cons in Hc' as [->|Hc']; auto.
        * auto. }
  destruct (Hloop (child_ids node) s) as (s2 & Hs2 & Hd2 & Hn2 & Hm2); [done|done|].
  rewrite Hs2.
  destruct (delete_step node s2 Hd2 Hnode Hn2) as (Hd' & Hn' & Hm').
  eexists. split; [done|]. split; [done|]. split; [done|]. auto.
Qed.

Lemma removed_subtree node s' :
  deleting t0 s' -> t0 !! node_id node = Some node ->
  node_lookup s' !! node_id node = None ->
  forall d, reaches t0 node d -> gone d s'.
Proof.
  intros Hdel Hnode Hnone d Hr. revert Hnode Hnone.
  induction Hr as [n|n c cn d Hin Hc Hr IH]; intros Hnode Hnone.
  - split; [done|]. destruct Hdel as (_ & _ & Hfree & _). apply Hfree; [|done].
    by rewrite Hnode.
  - pose proof (keys_ok _ _ Hc) as Hid. apply IH.
    + by rewrite Hid.
    + rewrite Hid. destruct Hdel as (_ & Hclosed & _). eauto.
Qed.

End Deletion.

(** A tree built by the creation operations can be deleted from: table
    keys are the nodes' identifiers, child links go strictly down (so the
    recursion of the deletion ends), and dependency lists are free of
    repetitions. *)
Lemma add_dependency_NoDup a b s : deps_NoDup s -> deps_NoDup (add_dependency a b s).
Proof.
  intros Hnd. unfold add_dependency.
  set (s1 := match dependency_graph s !! a with
             | Some _ => s
             | None => with_dependency_graph (insert a []) s
             end).
  assert (H1 : deps_NoDup s1).
  { subst s1. destruct (dependency_graph s !! a) eqn:E; [done|].
    intros k l. simpl. destruct (decide (a = k)) as [->|?].
    - rewrite lookup_insert_eq. intros [= <-]. constructor.
    - rewrite lookup_insert_ne by done. apply Hnd. }
  destruct b as [d|]; [|done].
  destruct (truthy (PStr d)); simpl; [|done]. case_bool_decide as Hin; simpl; [done|].
  intros k l. simpl. destruct (decide (a = k)) as [->|?].
  - rewrite lookup_alter_eq. destruct (dependency_graph s1 !! k) as [l0|] eqn:E; [|done].
    simpl. intros [= <-]. simpl in Hin. apply NoDup_app. split; [by eapply H1|].
    split; [|apply NoDup_singleton]. intros x Hx Hx'. apply list_elem_of_singleton in Hx'.
    by subst.
  - rewrite lookup_alter_ne by done. apply H1.
Qed.

Lemma add_constraint_dependency_graph a c s :
  dependency_graph (add_constraint a c s) = dependency_graph s.
Proof.
  unfold add_constraint.
  destruct (constraints s !! a); simpl;
    match goal with |- context [if ?c then _ else _] => destruct c end; reflexivity.
Qed.

Lemma add_constraints_dependency_graph nid cs s :
  dependency_graph (foldl (fun acc c => add_constraint nid c acc) s cs) = dependency_graph s.
Proof.
  revert s. induction cs as [|c cs IH]; intros s; simpl; [done|].
  by rewrite IH, add_constraint_dependency_graph.
Qed.

Lemma run_op_deps_NoDup env s o : deps_NoDup s -> deps_NoDup (run_op env s o).
Proof.
  intros Hnd. destruct o as [task cs|parent task]; simpl.
  - unfold create_root_node, Node_init, track_dependencies. simpl.
    apply add_dependency_NoDup. intros k l.
    rewrite add_constraints_dependency_graph. apply Hnd.
  - destruct (node_lookup s !! parent); [|done].
    unfold _create_child_node, create_child_node, Node_init, track_dependencies. simpl.
    by apply add_dependency_NoDup.
Qed.

Lemma run_ops_deps_NoDup env s ops : deps_NoDup s -> deps_NoDup (run_ops env s ops).
Proof.
  revert s. induction ops as [|o ops IH]; intros s Hnd; simpl; [done|].
  apply IH. by apply run_op_deps_NoDup.
Qed.

Lemma tree_inv_ranked env s :
  tree_inv env s ->
  let rk := fun k => Z.to_nat (Z.of_nat (uuid_count s) - depth (node_at s k)) in
  (forall k n, node_lookup s !! k = Some n -> node_id n = k) /\
  (forall k n c cn, node_lookup s !! k = Some n -> c ∈ child_ids n ->
     node_lookup s !! c = Some cn -> rk c < rk k) /\
  (forall k n, node_lookup s !! k = Some n -> rk k < S (uuid_count s)).
Proof.
  intros (Hk & _ & Hc & Hb) rk. split; [|split].
  - intros k n Hkn. by apply Hk in Hkn as [? _].
  - intros k n c cn Hkn Hin Hcn. subst rk. simpl. unfold node_at. rewrite Hkn, Hcn. simpl.
    destruct (Hc _ _ _ Hkn Hin) as (cn' & Hcn' & _ & Hd).
    rewrite Hcn in Hcn'. injection Hcn' as <-.
    apply Hb in Hkn. apply Hb in Hcn. lia.
  - intros k n Hkn. subst rk. simpl. unfold node_at. rewrite Hkn. simpl.
    apply Hb in Hkn. lia.
Qed.

(** C2.  Deletion cleanup.  In a session whose table keys are the nodes'
    identifiers, whose child links are acyclic (they go down along the
    rank [rk]) and whose dependency lists are duplicate-free, deleting a
    node of the table completes, and afterwards the node and every
    descendant are absent from the node table, from the dependency graph
    and from the constraints map, and no dependency list that is left
    holds the identifier of any of them. *)
Theorem delete_removes_subtree (s : Session) (node : Node) (rk : string -> nat) (fuel : nat) :
  (forall k n, node_lookup s !! k = Some n -> node_id n = k) ->
  (forall k n c cn, node_lookup s !! k = Some n -> c ∈ child_ids n ->
     node_lookup s !! c = Some cn -> rk c < rk k) ->
  deps_NoDup s ->
  node_lookup s !! node_id node = Some node ->
  rk (node_id node) < fuel ->
  exists s', delete_node_and_children fuel node s = Some s' /\
    forall d, reaches (node_lookup s) node d ->
      node_lookup s' !! d = None /\ dependency_graph s' !! d = None
      /\ constraints s' !! d = None
      /\ forall k l, dependency_graph s' !! k = Some l -> d ∉ l.
Proof.
  intros Hkeys Hrank Hnd Hnode Hfuel.
  assert (Hstart : deleting (node_lookup s) s).
  { split; [done|]. split; [|split; [|done]].
    - intros x xn c Hx Hnone. congruence.
    - intros x [xn Hx] Hnone. congruence. }
  destruct (delete_node_and_children_deleting (node_lookup s) rk Hkeys Hrank fuel node s)
    as (s' & Hrun & Hdel & Hnone & _); [done..|].
  exists s'. split; [done|]. intros d Hd.
  destruct (removed_subtree (node_lookup s) Hkeys node s' Hdel Hnode Hnone d Hd)
    as (? & ? & ? & ?).
  done.
Qed.

Lemma session_tree_inv : tree_inv (env_ex gateway_down) session_tree.
Proof.
  apply run_ops_inv.
  - intros i j H. simpl in H. by apply (inj pretty) in H.
  - by apply empty_table_inv.
Qed.

Lemma session_tree_deps_NoDup : deps_NoDup session_tree.
Proof.
  apply run_ops_deps_NoDup. intros k l H.
  change (dependency_graph session0) with (∅ : gmap string (list string)) in H.
  by rewrite lookup_empty in H.
Qed.

Lemma delete_removes_subtree_witness :
  exists s', delete_node_and_children 5 (node_at session_tree "1") session_tree = Some s' /\
    forall d, reaches (node_lookup session_tree) (node_at session_tree "1") d ->
      node_lookup s' !! d = None /\ dependency_graph s' !! d = None
      /\ constraints s' !! d = None
      /\ forall k l, dependency_graph s' !! k = Some l -> d ∉ l.
Proof.
  destruct (tree_inv_ranked _ _ session_tree_inv) as (Hkeys & Hrank & Hbound).
  apply (delete_removes_subtree session_tree (node_at session_tree "1")
           (fun k => Z.to_nat (Z.of_nat (uuid_count session_tree)
                               - depth (node_at session_tree k))) 5).
  - exact Hkeys.
  - exact Hrank.
  - exact session_tree_deps_NoDup.
  - vm_compute. reflexivity.
  - vm_compute. lia.
Defined.

Example delete_subtree_of_node_1 :
  exists s', delete_node_and_children 5 (node_at session_tree "1") session_tree = Some s'
    /\ (fun k => bool_decide (is_Some (node_lookup s' !! k))) <$> ["0"; "1"; "2"; "3"]
       = [true; false; true; false]
    /\ (fun k => dependency_graph s' !! k) <$> ["0"; "1"; "2"; "3"]
       = [Some []; None; Some ["0"]; None]
    /\ child_ids <$> node_lookup s' !! "0" = Some ["1"; "2"].
Proof. eexists. split; [vm_compute; reflexivity|]. vm_compute. done. Qed.

(** ** Constraint checking *)

Section CheckConstraintsFacts.
Context (parse : string -> string * string).

Lemma call_checker_frame nid ctype cvalue checker s :
  let s' := (call_checker nid ctype cvalue checker s).2 in
  constraint_checkers s' = constraint_checkers s /\ constraints s' = constraints s
  /\ dependency_graph s' = dependency_graph s
  /\ trace s' = trace s ++ [EvChecker ctype cvalue]
  /\ llm_calls s' = llm_calls s.
Proof.
  unfold call_checker. destruct (checker cvalue (node_at s nid)) as [r node']. simpl. done.
Qed.

Lemma check_each_cons nid c cs s :
  check_each parse nid (c :: cs) s =
  match constraint_checkers s !! (parse c).1 with
  | Some checker =>
      match call_checker nid (parse c).1 (parse c).2 checker s with
      | (Ok true, s1) => check_each parse nid cs s1
      | (Ok false, s1) => (Ok false, s1)
      | (Raise e, s1) => (Raise e, s1)
      end
  | None => check_each parse nid cs s
  end.
Proof.
  simpl. destruct (parse c) as [ctype cvalue]. simpl. unfold bind, get_session.
  destruct (constraint_checkers s !! ctype) as [checker|]; [|done].
  destruct (call_checker nid ctype cvalue checker s) as [[[|]|e] s1]; done.
Qed.

Lemma check_each_app_true nid pre post s s1 :
  check_each parse nid pre s = (Ok true, s1) ->
  check_each parse nid (pre ++ post) s = check_each parse nid post s1.
Proof.
  revert s. induction pre as [|c pre IH]; intros s Hpre.
  - simpl in Hpre. unfold ret in Hpre. by injection Hpre as <-.
  - rewrite <- app_comm_cons. rewrite check_each_cons in Hpre |- *.
    destruct (constraint_checkers s !! (parse c).1) as [checker|]; [|by apply IH].
    destruct (call_checker nid (parse c).1 (parse c).2 checker s) as [[[|]|e] s2];
      [by apply IH|done..].
Qed.

Lemma check_each_trace nid cs : forall s r s',
  check_each parse nid cs s = (r, s') ->
  constraint_checkers s' = constraint_checkers s /\
  exists k, trace s' = trace s ++ take k (checker_calls parse (constraint_checkers s) cs)
    /\ (r = Ok true -> List.length (checker_calls parse (constraint_checkers s) cs) <= k).
Proof.
  induction cs as [|c cs IH]; intros s r s' Hrun.
  - simpl in Hrun. unfold ret in Hrun. injection Hrun as <- <-. split; [done|].
    exists 0. simpl. rewrite app_nil_r. split; [done|lia].
  - rewrite check_each_cons in Hrun. unfold checker_calls. simpl.
    destruct (constraint_checkers s !! (parse c).1) as [checker|] eqn:Ereg.
    + pose proof (call_checker_frame nid (parse c).1 (parse c).2 checker s) as Hf.
      destruct (call_checker nid (parse c).1 (parse c).2 checker s) as [r1 s1].
      simpl in Hf. destruct Hf as (Hreg & _ & _ & Htr & _).
      destruct r1 as [[|]|e].
      * destruct (IH _ _ _ Hrun) as (Hreg' & k & Hk & Hall). rewrite Hreg in *.
        split; [done|]. exists (S k). simpl. rewrite Hk, Htr, <- app_assoc. simpl.
        split; [reflexivity|]. intros Hr. apply le_n_S. exact (Hall Hr).
      * injection Hrun as <- <-. split; [done|]. exists 1. simpl. rewrite take_0.
        split; [done|]. intros [=].
      * injection Hrun as <- <-. split; [done|]. exists 1. simpl. rewrite take_0.
        split; [done|]. intros [=].
    + apply IH in Hrun. done.
Qed.

End CheckConstraintsFacts.

(** X1.  [check_constraints] stops at the first failing checker.  When
    the constraints before [c] are all checked with success (or skipped)
    and the checker of [c] returns [False], the call returns [False] in
    the state that checker left: nothing that follows [c] in the list is
    looked at, and the last checker call on record is the one of [c]. *)
Theorem check_constraints_stops_at_first_failure
    (parse : string -> string * string) (nid : string) (s s1 : Session)
    (pre post : list string) (c : string) (checker : ConstraintChecker) (node' : Node) :
  get_constraints (node_id (node_at s nid)) s = pre ++ c :: post ->
  check_each parse nid pre s = (Ok true, s1) ->
  constraint_checkers s1 !! (parse c).1 = Some checker ->
  checker (parse c).2 (node_at s1 nid) = (Ok false, node') ->
  check_constraints parse nid s
  = (Ok false, update_node nid (fun _ => node') (emit (EvChecker (parse c).1 (parse c).2) s1)).
Proof.
  intros Hcs Hpre Hreg Hfail. unfold check_constraints, bind, get_session. rewrite Hcs.
  rewrite (check_each_app_true parse nid pre (c :: post) s s1 Hpre).
  rewrite check_each_cons, Hreg. unfold call_checker. rewrite Hfail. done.
Qed.

(** X2.  The checker calls [check_constraints] makes are, in order, those
    of an initial part of the node's constraint list, counting only the
    constraints whose type has a registered checker (a constraint of an
    unknown type is passed over); when the result is [True] every such
    constraint was checked.  The registry itself is left as it was. *)
Theorem check_constraints_calls_in_order
    (parse : string -> string * string) (nid : string) (s s' : Session) (r : result bool) :
  check_constraints parse nid s = (r, s') ->
  let cs := get_constraints (node_id (node_at s nid)) s in
  constraint_checkers s' = constraint_checkers s /\
  exists k, trace s' = trace s ++ take k (checker_calls parse (constraint_checkers s) cs)
    /\ (r = Ok true -> trace s' = trace s ++ checker_calls parse (constraint_checkers s) cs).
Proof.
  intros Hrun cs. unfold check_constraints, bind, get_session in Hrun.
  destruct (check_each_trace parse nid _ _ _ _ Hrun) as (Hreg & k & Hk & Hall).
  split; [done|]. exists k. split; [done|]. intros Hr. rewrite Hk.
  by rewrite take_ge by auto.
Qed.

Lemma check_constraints_stops_at_first_failure_witness :
  check_constraints AgentPkg.parse_constraint "0" (session_checked "abcdef x")
  = (Ok false,
     update_node "0"
       (fun _ => fail_node
          "Constraint violated: Output must be no more than 5 characters. Output: abcdef x"
          (node_at (session_checked "abcdef x") "0"))
       (emit (EvChecker "max_length" "5") (session_checked "abcdef x"))).
Proof.
  apply (check_constraints_stops_at_first_failure AgentPkg.parse_constraint "0"
           (session_checked "abcdef x") (session_checked "abcdef x")
           [] ["contains:x"] "max_length:5" _check_max_length).
  - vm_compute. reflexivity.
  - reflexivity.
  - vm_compute. reflexivity.
  - vm_compute. reflexivity.
Defined.

Lemma check_constraints_calls_in_order_witness :
  let s := session_checked "x" in
  let s' := (check_constraints AgentPkg.parse_constraint "0" s).2 in
  constraint_checkers s' = constraint_checkers s /\
  exists k, trace s' = trace s ++ take k
              (checker_calls AgentPkg.parse_constraint (constraint_checkers s)
                 (get_constraints (node_id (node_at s "0")) s))
    /\ (Ok true = Ok true -> trace s' = trace s ++
          checker_calls AgentPkg.parse_constraint (constraint_checkers s)
            (get_constraints (node_id (node_at s "0")) s)).
Proof.
  apply (check_constraints_calls_in_order AgentPkg.parse_constraint "0"
           (session_checked "x")
           (check_constraints AgentPkg.parse_constraint "0" (session_checked "x")).2
           (Ok true)).
  vm_compute. reflexivity.
Defined.

Example check_constraints_order_matters :
  (check_constraints AgentPkg.parse_constraint "0" (session_checked "abcdef x")).1 = Ok false
  /\ error_message (node_at (check_constraints AgentPkg.parse_constraint "0"
                               (session_checked "abcdef x")).2 "0")
     = "Constraint violated: Output must be no more than 5 characters. Output: abcdef x"
  /\ trace (check_constraints AgentPkg.parse_constraint "0" (session_checked "abcdef x")).2
     = [EvChecker "max_length" "5"].
Proof. vm_compute. done. Qed.

(** ** Parsing a constraint string *)

Lemma str_contains_char (c a : ascii) (s : string) :
  str_contains (String c EmptyString) (String a s)
  = Ascii.eqb c a || str_contains (String c EmptyString) s.
Proof.
  change (str_contains (String c EmptyString) (String a s))
    with (Ascii.eqb c a && true || str_contains (String c EmptyString) s).
  by rewrite andb_true_r.
Qed.

Lemma split_once_cons (sep a : ascii) (s : string) :
  split_once sep (String a s)
  = if Ascii.eqb a sep then Some (EmptyString, s)
    else match split_once sep s with
         | Some (l, r) => Some (String a l, r)
         | None => None
         end.
Proof. reflexivity. Qed.

Lemma split_once_no_sep (s : string) :
  str_contains ":" s = false -> split_once ":" s = None.
Proof.
  induction s as [|a s IH]; [done|].
  rewrite str_contains_char, split_once_cons. intros [Ha Hs]%orb_false_elim.
  rewrite Ascii.eqb_sym in Ha. rewrite Ha. by rewrite IH.
Qed.

Lemma split_once_first_sep (l r : string) :
  str_contains ":" l = false -> split_once ":" (l +:+ String ":" r) = Some (l, r).
Proof.
  induction l as [|a l IH]; [done|].
  rewrite str_contains_char. intros [Ha Hl]%orb_false_elim.
  change (String a l +:+ String ":" r) with (String a (l +:+ String ":" r)).
  rewrite split_once_cons. rewrite Ascii.eqb_sym in Ha. rewrite Ha. by rewrite IH.
Qed.

Lemma str_contains_sep_app (l r : string) : str_contains ":" (l +:+ String ":" r) = true.
Proof.
  induction l as [|a l IH]; [done|].
  change (String a l +:+ String ":" r) with (String a (l +:+ String ":" r)).
  rewrite str_contains_char, IH. by rewrite orb_true_r.
Qed.

(** What [strip] gives: the string without a run of white space at its
    start and at its end. *)
Fixpoint str_forall (p : ascii -> bool) (s : string) : bool :=
  match s with
  | EmptyString => true
  | String a s' => p a && str_forall p s'
  end.

Lemma lstrip_by_spec p s :
  exists a, s = a +:+ lstrip_by p s /\ str_forall p a = true
            /\ match lstrip_by p s with String c _ => p c = false | EmptyString => True end.
Proof.
  induction s as [|c s (a & Ha & Hsp & Hhd)].
  - by exists EmptyString.
  - cbn [lstrip_by]. destruct (p c) eqn:Ec.
    + exists (String c a). cbn [str_forall]. rewrite Ec, Hsp.
      split; [|done]. change (String c a +:+ lstrip_by p s)
        with (String c (a +:+ lstrip_by p s)). by f_equal.
    + exists EmptyString. done.
Qed.

Lemma rstrip_by_spec p s :
  exists b, s = rstrip_by p s +:+ b /\ str_forall p b = true
            /\ (rstrip_by p s = EmptyString \/
                exists t c, rstrip_by p s = t +:+ String c EmptyString /\ p c = false).
Proof.
  induction s as [|c s (b & Hb & Hsp & Hlast)].
  - exists EmptyString. auto.
  - cbn [rstrip_by]. destruct (rstrip_by p s) as [|d r] eqn:Er.
    + destruct (p c) eqn:Ec.
      * exists (String c b). cbn [str_forall]. rewrite Ec, Hsp.
        split; [|auto]. change (EmptyString +:+ String c b) with (String c b).
        change (EmptyString +:+ b) with b in Hb. by f_equal.
      * exists b. split; [|split; [done|]].
        -- change (String c EmptyString +:+ b) with (String c (EmptyString +:+ b)).
           by f_equal.
        -- right. exists EmptyString, c. done.
    + exists b. split; [|split; [done|]].
      * change (String c (String d r) +:+ b) with (String c (String d r +:+ b)).
        by f_equal.
      * right. destruct Hlast as [|(t & e & Ht & He)]; [done|].
        exists (String c t), e. split; [|done].
        change (String c t +:+ String e EmptyString)
          with (String c (t +:+ String e EmptyString)). by f_equal.
Qed.

Lemma rstrip_by_head p s c :
  p c = false -> exists t, rstrip_by p (String c s) = String c t.
Proof.
  intros Hc. simpl. destruct (rstrip_by p s); [rewrite Hc|]; eauto.
Qed.

(** X3.  [parse_constraint] of [src/agent]: a string with a colon is cut
    at its first colon and both parts are stripped of surrounding white
    space; a string without a colon gets the type [generic] and is, once
    stripped, the value. *)
Theorem agent_parse_constraint_spec (s l r : string) :
  (str_contains ":" s = false -> AgentPkg.parse_constraint s = ("generic", strip s)) /\
  (s = l +:+ String ":" r -> str_contains ":" l = false ->
   AgentPkg.parse_constraint s = (strip l, strip r)).
Proof.
  unfold AgentPkg.parse_constraint. split.
  - intros Hs. by rewrite split_once_no_sep.
  - intros -> Hl. by rewrite split_once_first_sep.
Qed.

Lemma agent_parse_constraint_spec_witness :
  AgentPkg.parse_constraint "code" = ("generic", "code")
  /\ AgentPkg.parse_constraint " max_length : 10 :x " = ("max_length", "10 :x").
Proof.
  split.
  - apply (agent_parse_constraint_spec "code" EmptyString EmptyString). reflexivity.
  - apply (agent_parse_constraint_spec " max_length : 10 :x " " max_length " " 10 :x ");
      reflexivity.
Defined.

(** X4.  [parse_constraint] of [src/components]: a string with a colon
    is cut at its first colon and both parts are stripped; a string
    without a colon is the type as it stands (white space included) and
    the value is empty. *)
Theorem components_parse_constraint_spec (s l r : string) :
  (str_contains ":" s = false -> Components.parse_constraint s = (s, EmptyString)) /\
  (s = l +:+ String ":" r -> str_contains ":" l = false ->
   Components.parse_constraint s = (strip l, strip r)).
Proof.
  unfold Components.parse_constraint. split.
  - by intros ->.
  - intros -> Hl. by rewrite str_contains_sep_app, split_once_first_sep.
Qed.

Lemma components_parse_constraint_spec_witness :
  Components.parse_constraint " code " = (" code ", EmptyString)
  /\ Components.parse_constraint "contains: TODO " = ("contains", "TODO").
Proof.
  split.
  - apply (components_parse_constraint_spec " code " EmptyString EmptyString). reflexivity.
  - apply (components_parse_constraint_spec "contains: TODO " "contains" " TODO ");
      reflexivity.
Defined.

(** [strip] cuts a run of white space off each end and nothing else. *)
Lemma strip_spec (s : string) :
  exists a b, s = a +:+ strip s +:+ b
    /\ str_forall is_space a = true /\ str_forall is_space b = true
    /\ match strip s with String c _ => is_space c = false | EmptyString => True end
    /\ (strip s = EmptyString \/
        exists t c, strip s = t +:+ String c EmptyString /\ is_space c = false).
Proof.
  unfold strip. destruct (lstrip_by_spec is_space s) as (a & Ha & Hsa & Hhd).
  destruct (rstrip_by_spec is_space (lstrip_by is_space s)) as (b & Hb & Hsb & Hlast).
  exists a, b. split; [by rewrite <- Hb|]. split; [done|]. split; [done|]. split; [|done].
  destruct (lstrip_by is_space s) as [|c t] eqn:El; [done|].
  destruct (rstrip_by_head is_space t c Hhd) as (t' & ->). done.
Qed.

(** ** Executing a node ([src/agent]) *)

Lemma node_at_update_node nid f s n :
  node_lookup s !! nid = Some n -> node_at (update_node nid f s) nid = f n.
Proof. intros H. unfold node_at, update_node. simpl. by rewrite lookup_alter_eq, H. Qed.

Lemma retrieve_from_memory_pure nid key s :
  (retrieve_from_memory nid key s).2 = s.
Proof. unfold retrieve_from_memory. by destruct (local_memory (node_at s nid)). Qed.

(** [build_prompt] reads the session and leaves it as it is. *)
Lemma build_prompt_pure env nid s : (AgentPkg.build_prompt env nid s).2 = s.
Proof.
  unfold AgentPkg.build_prompt, bind, get_session, lift_result.
  pose proof (retrieve_from_memory_pure nid "task" s) as H1.
  destruct (retrieve_from_memory nid "task" s) as [[task|e] s1]; simpl in H1; subst s1;
    [|done].
  pose proof (retrieve_from_memory_pure nid "regeneration_guidance" s) as H2.
  destruct (retrieve_from_memory nid "regeneration_guidance" s) as [[g|e] s2];
    simpl in H2; subst s2; done.
Qed.

Section RetryExhaustion.
Context (env : Env) (nid prompt : string).

Lemma attempt_body_gateway_error attempt s e :
  llm env (llm_calls s) prompt = Raise e ->
  AgentPkg.attempt_body env nid prompt attempt s
  = let s1 := with_llm_calls (S (llm_calls s)) (emit (EvGenerate prompt) s) in
    if attempt <? MAX_RETRIES - 1 then (Ok Next, emit (EvSleep RETRY_DELAY) s1)
    else (Ok Return,
          update_node nid
            (fun n => set_error_message
                        ("Error after " +:+ str_of_Z (Z.of_nat MAX_RETRIES) +:+ " attempts: "
                         +:+ exn_str e)
                        (set_status "failed" n)) s1).
Proof.
  intros He. unfold AgentPkg.attempt_body, try_except, bind, generate_content. rewrite He.
  unfold AgentPkg.handle_node_retryable_error.
  destruct (attempt <? MAX_RETRIES - 1); reflexivity.
Qed.

End RetryExhaustion.

(** X5.  Retry exhaustion in [Agent._execute_node] of [src/agent].  When
    the gateway raises on each of the three calls, the call returns
    normally with the node [failed]; the message counts 3 attempts and
    ends with the text of the last exception; the gateway was called
    exactly three times with the same prompt, with a sleep of
    [RETRY_DELAY] between two calls and none after the last; no node was
    added or removed and the node's output and children are as before. *)
Theorem execute_gives_up_after_three_failures
    (env : Env) (nid : string) (s : Session) (n : Node) (prompt : string) (e0 e1 e2 : exn) :
  node_lookup s !! nid = Some n ->
  (AgentPkg.build_prompt env nid (update_node nid (set_status "running") s)).1 = Ok prompt ->
  llm env (llm_calls s) prompt = Raise e0 ->
  llm env (S (llm_calls s)) prompt = Raise e1 ->
  llm env (S (S (llm_calls s))) prompt = Raise e2 ->
  exists s', AgentPkg._execute_node env nid s = (Ok tt, s') /\
    status (node_at s' nid) = "failed" /\
    error_message (node_at s' nid) = "Error after 3 attempts: " +:+ exn_str e2 /\
    trace s' = trace s ++ [EvGenerate prompt; EvSleep RETRY_DELAY; EvGenerate prompt;
                           EvSleep RETRY_DELAY; EvGenerate prompt] /\
    llm_calls s' = llm_calls s + 3 /\
    dom (node_lookup s') = dom (node_lookup s) /\
    output (node_at s' nid) = output n /\ child_ids (node_at s' nid) = child_ids n.
Proof.
  intros Hn Hprompt H0 H1 H2.
  unfold AgentPkg._execute_node, bind, modify.
  pose proof (build_prompt_pure env nid (update_node nid (set_status "running") s)) as Hpure.
  destruct (AgentPkg.build_prompt env nid (update_node nid (set_status "running") s))
    as [r s1]. simpl in Hprompt, Hpure. subst r s1.
  change (seq 0 MAX_RETRIES) with [0; 1; 2]. cbn [AgentPkg.retry_loop]. unfold bind.
  rewrite (attempt_body_gateway_error env nid prompt 0 _ e0) by exact H0.
  cbn [Nat.ltb Nat.leb MAX_RETRIES Nat.sub].
  rewrite (attempt_body_gateway_error env nid prompt 1 _ e1) by exact H1.
  cbn [Nat.ltb Nat.leb MAX_RETRIES Nat.sub].
  rewrite (attempt_body_gateway_error env nid prompt 2 _ e2) by exact H2.
  cbn [Nat.ltb Nat.leb MAX_RETRIES Nat.sub].
  eexists. split; [reflexivity|].
  repeat split.
  - simpl. unfold node_at. simpl. by rewrite !lookup_alter_eq, Hn.
  - simpl. unfold node_at. simpl. by rewrite !lookup_alter_eq, Hn.
  - simpl. by rewrite <- !app_assoc.
  - simpl. lia.
  - simpl. by rewrite !dom_alter_L.
  - simpl. unfold node_at. simpl. by rewrite !lookup_alter_eq, Hn.
  - simpl. unfold node_at. simpl. by rewrite !lookup_alter_eq, Hn.
Qed.

Lemma execute_gives_up_after_three_failures_witness :
  exists s', AgentPkg._execute_node (env_ex gateway_down) "1" session_tree = (Ok tt, s') /\
    status (node_at s' "1") = "failed" /\
    error_message (node_at s' "1")
    = "Error after 3 attempts: " +:+ exn_str (Exception "ConnectionError" "gateway unreachable") /\
    trace s' = trace session_tree
               ++ [EvGenerate prompt_1; EvSleep RETRY_DELAY; EvGenerate prompt_1;
                   EvSleep RETRY_DELAY; EvGenerate prompt_1] /\
    llm_calls s' = llm_calls session_tree + 3 /\
    dom (node_lookup s') = dom (node_lookup session_tree) /\
    output (node_at s' "1") = output (node_at session_tree "1") /\
    child_ids (node_at s' "1") = child_ids (node_at session_tree "1").
Proof.
  apply (execute_gives_up_after_three_failures (env_ex gateway_down) "1" session_tree
           (node_at session_tree "1") prompt_1
           (Exception "ConnectionError" "gateway unreachable")
           (Exception "ConnectionError" "gateway unreachable")
           (Exception "ConnectionError" "gateway unreachable")).
  - vm_compute. reflexivity.
  - vm_compute. reflexivity.
  - reflexivity.
  - reflexivity.
  - reflexivity.
Defined.

(** ** Processing the output of the gateway ([src/agent]) *)

(** X6.  [Node.process_llm_output] of [src/agent] never raises: whatever
    the text and whatever the JSON library and the session do, the call
    returns normally (an exception inside it ends as the status
    [failed] with a message that starts with
    [Error processing LLM output: ]). *)
Theorem process_llm_output_never_raises (env : Env) (nid llm_output : string) (s : Session) :
  (AgentPkg.process_llm_output env nid llm_output s).1 = Ok tt.
Proof.
  unfold AgentPkg.process_llm_output, try_except.
  match goal with |- context [match ?c s with _ => _ end] => destruct (c s) as [[[]|e] s1] end;
    reflexivity.
Qed.

Lemma attempt_body_constraint_failure env nid prompt attempt s llm_output :
  llm env (llm_calls s) prompt = Ok llm_output ->
  let s1 := update_node nid (set_output llm_output)
              (with_llm_calls (S (llm_calls s)) (emit (EvGenerate prompt) s)) in
  let s2 := (AgentPkg.process_llm_output env nid llm_output s1).2 in
  forall r, (check_constraints AgentPkg.parse_constraint nid s2).1 = Ok r ->
  AgentPkg.attempt_body env nid prompt attempt s
  = (Ok (if r then Break else Return),
     (check_constraints AgentPkg.parse_constraint nid s2).2).
Proof.
  intros Hllm s1 s2 r Hcheck.
  unfold AgentPkg.attempt_body, try_except, bind, generate_content, modify. rewrite Hllm.
  fold s1. pose proof (process_llm_output_never_raises env nid llm_output s1) as Hp.
  destruct (AgentPkg.process_llm_output env nid llm_output s1) as [rp sp] eqn:Ep.
  simpl in Hp. subst rp. subst s2. simpl in Hcheck |- *.
  destruct (check_constraints AgentPkg.parse_constraint nid sp) as [rc sc].
  simpl in Hcheck |- *. subst rc. by destruct r.
Qed.

(** X7.  A failed constraint check ends [Agent._execute_node] of
    [src/agent] at once.  When the first gateway call answers and the
    check of the processed output returns [False], the call returns in
    exactly the state the check left: the gateway is not called again,
    nothing is slept, the status is not set to [completed] and no
    summary is asked for. *)
Theorem execute_stops_on_constraint_failure
    (env : Env) (nid : string) (s : Session) (prompt llm_output : string) :
  (AgentPkg.build_prompt env nid (update_node nid (set_status "running") s)).1 = Ok prompt ->
  llm env (llm_calls s) prompt = Ok llm_output ->
  let s1 := update_node nid (set_output llm_output)
              (with_llm_calls (S (llm_calls s))
                 (emit (EvGenerate prompt) (update_node nid (set_status "running") s))) in
  let s2 := (AgentPkg.process_llm_output env nid llm_output s1).2 in
  (check_constraints AgentPkg.parse_constraint nid s2).1 = Ok false ->
  AgentPkg._execute_node env nid s
  = (Ok tt, (check_constraints AgentPkg.parse_constraint nid s2).2).
Proof.
  intros Hprompt Hllm s1 s2 Hcheck.
  unfold AgentPkg._execute_node, bind, modify.
  pose proof (build_prompt_pure env nid (update_node nid (set_status "running") s)) as Hpure.
  destruct (AgentPkg.build_prompt env nid (update_node nid (set_status "running") s))
    as [r s0]. simpl in Hprompt, Hpure. subst r s0.
  change (seq 0 MAX_RETRIES) with [0; 1; 2]. cbn [AgentPkg.retry_loop]. unfold bind.
  rewrite (attempt_body_constraint_failure env nid prompt 0
             (update_node nid (set_status "running") s) llm_output Hllm false Hcheck).
  reflexivity.
Qed.

Lemma execute_stops_on_constraint_failure_witness :
  let env := env_ex (gateway_says "abcdef x") in
  let s := session_checked EmptyString in
  let s1 := update_node "0" (set_output "abcdef x")
              (with_llm_calls (S (llm_calls s))
                 (emit (EvGenerate prompt_0) (update_node "0" (set_status "running") s))) in
  let s2 := (AgentPkg.process_llm_output env "0" "abcdef x" s1).2 in
  AgentPkg._execute_node env "0" s
  = (Ok tt, (check_constraints AgentPkg.parse_constraint "0" s2).2).
Proof.
  apply (execute_stops_on_constraint_failure (env_ex (gateway_says "abcdef x")) "0"
           (session_checked EmptyString) prompt_0 "abcdef x").
  - vm_compute. reflexivity.
  - reflexivity.
  - vm_compute. reflexivity.
Defined.

Example execute_with_too_long_output :
  let s' := (AgentPkg._execute_node (env_ex (gateway_says "abcdef x")) "0"
               (session_checked EmptyString)).2 in
  status (node_at s' "0") = "failed"
  /\ error_message (node_at s' "0")
     = "Constraint violated: Output must be no more than 5 characters. Output: abcdef x"
  /\ trace s' = [EvGenerate prompt_0; EvChecker "max_length" "5"]
  /\ llm_calls s' = 1.
Proof. vm_compute. done. Qed.

Lemma store_in_memory_object nid key value s n m :
  node_lookup s !! nid = Some n -> local_memory n = LMObject m ->
  store_in_memory nid key value s
  = (Ok tt,
     update_node nid
       (set_local_memory
          (LMObject (mkLocalMemory (mem_node_id m) (<[key := value]> (mem_local_memory m)))))
       s).
Proof.
  intros Hn Hm. unfold store_in_memory, node_at. by rewrite Hn; simpl; rewrite Hm.
Qed.

(** X8.  Where [Node.process_llm_output] of [src/agent] puts a result.
    For a node whose local memory is a [LocalMemory] object:
    when the extraction yields nothing, or a value that counts as false
    (the empty object, the empty list, 0, ...), the raw text is stored
    under [result]; when it yields an object with a key [result] and no
    list under [subtasks], the value of that key is stored; when it
    yields a non-empty object with neither, the whole object is stored.
    Nothing else in the session changes. *)
Theorem process_llm_output_stores_result
    (env : Env) (nid text : string) (s : Session) (n : Node) (m : LocalMemory) (v : pyval) :
  node_lookup s !! nid = Some n -> local_memory n = LMObject m ->
  AgentPkg.extract_json_from_text env text = Ok v ->
  let stored (x : pyval) :=
    (Ok tt,
     update_node nid
       (set_local_memory
          (LMObject (mkLocalMemory (mem_node_id m) (<["result" := x]> (mem_local_memory m)))))
       s) in
  (truthy v = false -> AgentPkg.process_llm_output env nid text s = stored (PStr text)) /\
  (forall d r, v = PDict d -> dict_get d "result" = Some r ->
     (forall l, dict_get d "subtasks" <> Some (PList l)) ->
     AgentPkg.process_llm_output env nid text s = stored r) /\
  (forall d, v = PDict d -> d <> [] -> dict_get d "result" = None ->
     (forall l, dict_get d "subtasks" <> Some (PList l)) ->
     AgentPkg.process_llm_output env nid text s = stored v).
Proof.
  intros Hn Hm Hx stored. unfold AgentPkg.process_llm_output, try_except, bind, lift_result.
  rewrite Hx. split; [|split].
  - intros ->. by rewrite (store_in_memory_object nid "result" _ s n m Hn Hm).
  - intros d r -> Hr Hsub.
    assert (Ht : truthy (PDict d) = true) by (by destruct d).
    rewrite Ht. simpl. rewrite ?Hr.
    destruct (dict_get d "subtasks") as [sub|] eqn:Es.
    + repeat first [ rewrite bool_decide_true by eauto | progress simpl ].
      rewrite ?Hr. destruct sub; try (by destruct (Hsub l));
        by rewrite (store_in_memory_object nid "result" _ s n m Hn Hm).
    + repeat first [ rewrite bool_decide_true by eauto
                   | rewrite bool_decide_false by (by intros [? ?])
                   | progress simpl | progress unfold ret ].
      rewrite ?Hr. by rewrite (store_in_memory_object nid "result" _ s n m Hn Hm).
  - intros d -> Hd Hr Hsub.
    assert (Ht : truthy (PDict d) = true) by (by destruct d).
    rewrite Ht. simpl. rewrite ?Hr.
    destruct (dict_get d "subtasks") as [sub|] eqn:Es.
    + repeat first [ rewrite bool_decide_true by eauto
                   | rewrite bool_decide_false by (by intros [? ?])
                   | progress simpl ].
      destruct sub; try (by destruct (Hsub l));
        by rewrite (store_in_memory_object nid "result" _ s n m Hn Hm).
    + repeat first [ rewrite bool_decide_false by (by intros [? ?])
                   | progress simpl | progress unfold ret ].
      by rewrite (store_in_memory_object nid "result" _ s n m Hn Hm).
Qed.

Lemma process_llm_output_stores_result_witness :
  AgentPkg.process_llm_output (env_ex gateway_down) "1" "{}" session_tree
  = (Ok tt,
     update_node "1"
       (set_local_memory
          (LMObject (mkLocalMemory "1" (<["result" := PStr "{}"]> {["task" := PStr "layout"]}))))
       session_tree).
Proof.
  destruct (process_llm_output_stores_result (env_ex gateway_down) "1" "{}" session_tree
              (node_at session_tree "1")
              (mkLocalMemory "1" {["task" := PStr "layout"]}) (PDict []))
    as (Hraw & _ & _).
  - vm_compute. reflexivity.
  - vm_compute. reflexivity.
  - vm_compute. reflexivity.
  - exact (Hraw eq_refl).
Defined.

(** ** Extracting JSON from a text ([src/agent]) *)





(** ** Saving and loading a session ([src/agent]) *)

(** What [save_session] leaves of a node: the same attributes, with the
    plain dictionary in the place of the [LocalMemory] object. *)
Definition unwrapped (n : Node) : Node :=
  set_local_memory (LMDict (AgentPkg.memory_dict (local_memory n))) n.

Definition holds_memory_object (n : Node) : Prop :=
  exists m, local_memory n = LMObject m.

Lemma unwrap_loop ks : forall s,
  NoDup ks ->
  (forall k, k ∈ ks -> exists n, node_lookup s !! k = Some n /\ holds_memory_object n) ->
  exists s', for_each ks AgentPkg.unwrap_local_memory s = (Ok tt, s')
    /\ (forall k, node_lookup s' !! k
                  = if bool_decide (k ∈ ks) then unwrapped <$> node_lookup s !! k
                    else node_lookup s !! k)
    /\ s' = with_node_lookup (fun _ => node_lookup s') s.
Proof.
  induction ks as [|k0 ks IH]; intros s Hnd Hall.
  - exists s. split; [done|]. split; [|by destruct s]. intros k.
    rewrite bool_decide_false; [done|]. apply not_elem_of_nil.
  - apply NoDup_cons in Hnd as [Hk0 Hnd].
    destruct (Hall k0) as (n0 & Hn0 & m0 & Hm0); [by left|].
    set (s1 := update_node k0 (set_local_memory (LMDict (mem_local_memory m0))) s).
    assert (Hstep : AgentPkg.unwrap_local_memory k0 s = (Ok tt, s1)).
    { unfold AgentPkg.unwrap_local_memory, node_at. rewrite Hn0. simpl. by rewrite Hm0. }
    destruct (IH s1 Hnd) as (s' & Hrun & Hlook & Hrest).
    { intros k Hk. destruct (Hall k) as (n & Hn & Hobj); [by right|].
      exists n. split; [|done]. subst s1. unfold update_node. simpl.
      rewrite lookup_alter_ne; [done|]. intros ->. done. }
    exists s'. split; [|split].
    + simpl. unfold bind. by rewrite Hstep.
    + intros k. rewrite Hlook. subst s1. unfold update_node. simpl.
      destruct (decide (k = k0)) as [->|Hne].
      * rewrite bool_decide_false by done. rewrite bool_decide_true by (by left).
        rewrite lookup_alter_eq, Hn0. simpl. unfold unwrapped. by rewrite Hm0.
      * rewrite lookup_alter_ne by done.
        destruct (decide (k ∈ ks)) as [Hin|Hnin].
        -- rewrite !bool_decide_true; [done|by right|done].
        -- rewrite !bool_decide_false; [done| |done].
           intros [?|?]%elem_of_cons; done.
    + rewrite Hrest. subst s1. by destruct s.
Qed.

(** X10.  [Agent.save_session] of [src/agent] changes the session it
    saves.  When a root is set and every node of the table holds a
    [LocalMemory] object, the call returns the document, and afterwards
    every node of the table holds the plain dictionary of its memory in
    the place of the object, its other attributes being as before; the
    rest of the session is as before; the document holds exactly these
    nodes.  (A second save then fails on the first node it meets.) *)
Theorem save_session_unwraps_local_memory (s : Session) (root : string) :
  root_node_id s = Some root ->
  (forall k n, node_lookup s !! k = Some n -> holds_memory_object n) ->
  exists doc s', AgentPkg.save_session s = (Ok doc, s')
    /\ node_lookup s' = unwrapped <$> node_lookup s
    /\ s' = with_node_lookup (fun _ => node_lookup s') s
    /\ AgentPkg.doc_node_lookup doc = node_lookup s'
    /\ AgentPkg.doc_dependency_graph doc = dependency_graph s
    /\ AgentPkg.doc_constraints doc = constraints s
    /\ AgentPkg.doc_root_node_id doc = root
    /\ AgentPkg.doc_global_memory doc = global_context s
    /\ AgentPkg.doc_execution_count doc = execution_count s
    /\ (node_lookup s <> ∅ -> exists e s'', AgentPkg.save_session s' = (Raise e, s'')
                                            /\ exn_cls e = "AttributeError").
Proof.
  intros Hroot Hobj.
  destruct (unwrap_loop (map_to_list (node_lookup s)).*1 s) as (s' & Hrun & Hlook & Hrest).
  { apply NoDup_fst_map_to_list. }
  { intros k Hk. apply list_elem_of_fmap in Hk as ([k' n] & -> & Hk).
    apply elem_of_map_to_list in Hk. eauto. }
  assert (Htable : node_lookup s' = unwrapped <$> node_lookup s).
  { apply map_eq. intros k. rewrite Hlook, lookup_fmap. case_bool_decide as Hk; [done|].
    destruct (node_lookup s !! k) as [n|] eqn:En; [|done]. exfalso. apply Hk.
    apply list_elem_of_fmap. exists (k, n). split; [done|]. by apply elem_of_map_to_list. }
  eexists _, s'. split.
  { unfold AgentPkg.save_session, bind, get_session. rewrite Hroot. unfold bind.
    rewrite Hrun. reflexivity. }
  split; [done|]. split; [done|]. rewrite Hrest. simpl.
  repeat (split; [done|]). intros Hne.
  (* the second save: the first node met holds a dictionary *)
  unfold AgentPkg.save_session, bind, get_session. simpl. rewrite Hroot. unfold bind.
  destruct (map_to_list (node_lookup s')) as [|[k n] l] eqn:El.
  { apply map_to_list_empty_iff in El. rewrite Htable in El.
    apply fmap_empty_iff in El. done. }
  assert (Hk : node_lookup s' !! k = Some n).
  { apply elem_of_map_to_list. rewrite El. by left. }
  replace (map_to_list (node_lookup (with_node_lookup (fun _ => node_lookup s') s)))
    with ((k, n) :: l) by (by rewrite <- El).
  simpl. unfold bind, AgentPkg.unwrap_local_memory at 1, node_at. simpl. rewrite Hk. simpl.
  rewrite Htable, lookup_fmap in Hk. destruct (node_lookup s !! k) as [n0|]; [|done].
  injection Hk as <-. simpl. eauto.
Qed.

Lemma session_rooted_objects k n :
  node_lookup session_rooted !! k = Some n -> holds_memory_object n.
Proof.
  intros Hk. apply elem_of_map_to_list in Hk.
  assert (Hall : Forall (fun kn => holds_memory_object kn.2)
                   (map_to_list (node_lookup session_rooted))).
  { vm_compute. repeat constructor; eexists; reflexivity. }
  rewrite Forall_forall in Hall. exact (Hall _ Hk).
Qed.

Lemma save_session_unwraps_local_memory_witness :
  exists doc s', AgentPkg.save_session session_rooted = (Ok doc, s')
    /\ node_lookup s' = unwrapped <$> node_lookup session_rooted
    /\ s' = with_node_lookup (fun _ => node_lookup s') session_rooted
    /\ AgentPkg.doc_node_lookup doc = node_lookup s'
    /\ AgentPkg.doc_dependency_graph doc = dependency_graph session_rooted
    /\ AgentPkg.doc_constraints doc = constraints session_rooted
    /\ AgentPkg.doc_root_node_id doc = "0"
    /\ AgentPkg.doc_global_memory doc = global_context session_rooted
    /\ AgentPkg.doc_execution_count doc = execution_count session_rooted
    /\ (node_lookup session_rooted <> ∅ ->
        exists e s'', AgentPkg.save_session s' = (Raise e, s'')
                      /\ exn_cls e = "AttributeError").
Proof.
  apply (save_session_unwraps_local_memory session_rooted "0").
  - reflexivity.
  - exact session_rooted_objects.
Defined.

Example node_after_save :
  local_memory (node_at (AgentPkg.save_session session_rooted).2 "1")
  = LMDict {["task" := PStr "layout"]}
  /\ (AgentPkg._execute_node (env_ex gateway_down) "1"
        (AgentPkg.save_session session_rooted).2).1
     = Raise (Exception "AttributeError" "'dict' object has no attribute 'retrieve'").
Proof. vm_compute. done. Qed.

(** The node [load_session] makes from an entry of the document. *)
Definition reloaded (node_data : Node) : Node :=
  mkNode (node_id node_data) (depth node_data)
    (LMObject (mkLocalMemory (node_id node_data)
                 (AgentPkg.memory_dict (local_memory node_data))))
    (parent_id node_data) (child_ids node_data) (status node_data) (output node_data)
    (error_message node_data) (task_description node_data).

Lemma load_loop env l : forall s0,
  NoDup l.*1 ->
  exists s', for_each l (AgentPkg.load_node env) s0 = (Ok tt, s')
    /\ (forall k, node_lookup s' !! k
                  = match (list_to_map l : gmap string Node) !! k with
                    | Some nd => Some (reloaded nd)
                    | None => node_lookup s0 !! k
                    end)
    /\ dependency_graph s' = dependency_graph s0 /\ constraints s' = constraints s0
    /\ root_node_id s' = root_node_id s0 /\ global_context s' = global_context s0
    /\ execution_count s' = execution_count s0.
Proof.
  induction l as [|[k0 nd0] l IH]; intros s0 Hnd.
  - exists s0. split; [done|]. split; [|done]. intros k.
    rewrite list_to_map_nil. by rewrite lookup_empty.
  - simpl in Hnd. apply NoDup_cons in Hnd as [Hk0 Hnd].
    set (s1 := with_node_lookup (insert k0 (reloaded nd0))
                 (with_uuid_count (S (uuid_count s0)) s0)).
    assert (Hstep : AgentPkg.load_node env (k0, nd0) s0 = (Ok tt, s1)) by reflexivity.
    destruct (IH s1 Hnd) as (s' & Hrun & Hlook & Hd & Hc & Hr & Hg & He).
    exists s'. split; [|split].
    + simpl. unfold bind. by rewrite Hstep.
    + intros k. rewrite Hlook. simpl. destruct (decide (k = k0)) as [->|Hne].
      * rewrite lookup_insert_eq.
        rewrite (not_elem_of_list_to_map_1 l k0 Hk0). subst s1. simpl.
        by rewrite lookup_insert_eq.
      * rewrite lookup_insert_ne by done. subst s1. simpl.
        by rewrite lookup_insert_ne by done.
    + rewrite Hd, Hc, Hr, Hg, He. done.
Qed.

(** X11.  Save, then load, gives the session back ([src/agent]).  When a
    root is set and every node of the table holds the [LocalMemory]
    object made for it, [save_session] returns a document, and
    [load_session] of that document - into whatever session - returns
    with the node table, the dependency graph, the constraints, the root
    identifier, the global context and the execution counter of the
    session that was saved (as it was before the save touched it). *)
Theorem save_then_load_restores (env : Env) (s t : Session) (root : string) :
  root_node_id s = Some root ->
  (forall k n, node_lookup s !! k = Some n ->
     exists d, local_memory n = LMObject (mkLocalMemory (node_id n) d)) ->
  exists doc s1 t', AgentPkg.save_session s = (Ok doc, s1)
    /\ AgentPkg.load_session env doc t = (Ok tt, t')
    /\ node_lookup t' = node_lookup s
    /\ dependency_graph t' = dependency_graph s
    /\ constraints t' = constraints s
    /\ root_node_id t' = Some root
    /\ global_context t' = global_context s
    /\ execution_count t' = execution_count s.
Proof.
  intros Hroot Hobj.
  destruct (save_session_unwraps_local_memory s root Hroot)
    as (doc & s1 & Hsave & Htable & _ & Hdn & Hdd & Hdc & Hdr & Hdg & Hde & _).
  { intros k n Hk. destruct (Hobj k n Hk) as [d Hd]. by eexists. }
  exists doc, s1.
  set (t0 := with_node_lookup (fun _ => ∅)
               (with_root_node_id (Some (AgentPkg.doc_root_node_id doc))
                  (AgentPkg.reset_agent env t))).
  destruct (load_loop env (map_to_list (AgentPkg.doc_node_lookup doc)) t0)
    as (t1 & Hrun & Hlook & Hd1 & Hc1 & Hr1 & Hg1 & He1).
  { apply NoDup_fst_map_to_list. }
  eexists. split; [done|]. split.
  { unfold AgentPkg.load_session, bind, modify. fold t0. rewrite Hrun. reflexivity. }
  simpl. rewrite Hr1. simpl. rewrite Hdd, Hdc, Hdr, Hdg, Hde.
  split; [|done]. apply map_eq. intros k. rewrite Hlook, list_to_map_to_list, Hdn, Htable.
  rewrite lookup_fmap. subst t0. simpl. rewrite lookup_empty.
  destruct (node_lookup s !! k) as [n|] eqn:En; [|done]. simpl. f_equal.
  destruct (Hobj k n En) as [d Hd]. destruct n. simpl in *. subst. reflexivity.
Qed.

Lemma session_rooted_own_memory k n :
  node_lookup session_rooted !! k = Some n ->
  exists d, local_memory n = LMObject (mkLocalMemory (node_id n) d).
Proof.
  intros Hk. apply elem_of_map_to_list in Hk.
  assert (Hall : Forall (fun kn => exists d,
                           local_memory kn.2 = LMObject (mkLocalMemory (node_id kn.2) d))
                   (map_to_list (node_lookup session_rooted))).
  { vm_compute. repeat constructor; eexists; reflexivity. }
  rewrite Forall_forall in Hall. exact (Hall _ Hk).
Qed.

Lemma save_then_load_restores_witness :
  exists doc s1 t', AgentPkg.save_session session_rooted = (Ok doc, s1)
    /\ AgentPkg.load_session (env_ex gateway_down) doc session0 = (Ok tt, t')
    /\ node_lookup t' = node_lookup session_rooted
    /\ dependency_graph t' = dependency_graph session_rooted
    /\ constraints t' = constraints session_rooted
    /\ root_node_id t' = Some "0"
    /\ global_context t' = global_context session_rooted
    /\ execution_count t' = execution_count session_rooted.
Proof.
  apply (save_then_load_restores (env_ex gateway_down) session_rooted session0 "0").
  - reflexivity.
  - exact session_rooted_own_memory.
Defined.

(** ** Regenerating a node ([src/agent]) *)

Lemma update_node_insert nid f s n :
  node_lookup s !! nid = Some n ->
  update_node nid f s = with_node_lookup (insert nid (f n)) s.
Proof.
  intros Hn. destruct s. unfold update_node, with_node_lookup. simpl in *. f_equal.
  apply map_eq. intros k. destruct (decide (k = nid)) as [->|Hne].
  - by rewrite lookup_alter_eq, lookup_insert_eq, Hn.
  - by rewrite lookup_alter_ne, lookup_insert_ne.
Qed.

Lemma with_node_lookup_insert_twice nid x y s :
  with_node_lookup (insert nid y) (with_node_lookup (insert nid x) s)
  = with_node_lookup (insert nid y) s.
Proof. destruct s. unfold with_node_lookup. simpl. by rewrite insert_insert_eq. Qed.

Lemma node_lookup_with_insert nid x s :
  node_lookup (with_node_lookup (insert nid x) s) !! nid = Some x.
Proof. simpl. apply lookup_insert_eq. Qed.

(** X12.  [Agent._regenerate_node] of [src/agent] only resets the node.
    For a node of the table the call returns normally - also when the
    node's memory is the plain dictionary a save left - with the status
    [pending], an empty output and error message, and the guidance
    stored under [regeneration_guidance]; the children of the node and
    every other part of the session are untouched, and nothing is
    executed.  A memory that was a plain dictionary is replaced by a new
    empty [LocalMemory], so what it held (the task included) is lost. *)
Theorem regenerate_resets_node_only (nid guidance : string) (s : Session) (n : Node) :
  node_lookup s !! nid = Some n ->
  let memory :=
    match local_memory n with
    | LMObject m =>
        mkLocalMemory (mem_node_id m)
          (<["regeneration_guidance" := PStr guidance]> (mem_local_memory m))
    | LMDict _ =>
        mkLocalMemory (node_id n) {["regeneration_guidance" := PStr guidance]}
    end in
  AgentPkg._regenerate_node nid guidance s
  = (Ok tt,
     with_node_lookup
       (insert nid (mkNode (node_id n) (depth n) (LMObject memory) (parent_id n)
                      (child_ids n) "pending" EmptyString EmptyString (task_description n)))
       s).
Proof.
  intros Hn memory. unfold AgentPkg._regenerate_node, bind, modify.
  rewrite (update_node_insert nid _ s n Hn).
  rewrite (update_node_insert nid _ _ _ (node_lookup_with_insert nid _ s)).
  rewrite with_node_lookup_insert_twice.
  unfold store_in_memory, node_at. rewrite node_lookup_with_insert. simpl.
  subst memory. destruct (local_memory n) as [m|d] eqn:Em; simpl; rewrite ?Em; simpl.
  - rewrite (update_node_insert nid _ _ _ (node_lookup_with_insert nid _ s)).
    rewrite with_node_lookup_insert_twice. reflexivity.
  - rewrite (update_node_insert nid _ _ _ (node_lookup_with_insert nid _ s)).
    rewrite with_node_lookup_insert_twice. simpl. by rewrite insert_empty.
Qed.

Lemma regenerate_resets_node_only_witness :
  let n := node_at session_tree "0" in
  AgentPkg._regenerate_node "0" "be brief" session_tree
  = (Ok tt,
     with_node_lookup
       (insert "0"
          (mkNode (node_id n) (depth n)
             (LMObject
                match local_memory n with
                | LMObject m =>
                    mkLocalMemory (mem_node_id m)
                      (<["regeneration_guidance" := PStr "be brief"]> (mem_local_memory m))
                | LMDict _ =>
                    mkLocalMemory (node_id n) {["regeneration_guidance" := PStr "be brief"]}
                end)
             (parent_id n) (child_ids n) "pending" EmptyString EmptyString
             (task_description n)))
       session_tree).
Proof.
  apply (regenerate_resets_node_only "0" "be brief" session_tree (node_at session_tree "0")).
  vm_compute. reflexivity.
Defined.

Example regenerate_keeps_children :
  let s' := (AgentPkg._regenerate_node "0" "be brief" session_tree).2 in
  child_ids (node_at s' "0") = ["1"; "2"]
  /\ dom (node_lookup s') = dom (node_lookup session_tree)
  /\ trace s' = [].
Proof. vm_compute. done. Qed.

(** ** The tracker's lists *)

Lemma get_constraints_add_constraint nid c k s :
  get_constraints k (add_constraint nid c s)
  = if decide (k = nid)
    then (if bool_decide (c ∈ get_constraints nid s) then get_constraints nid s
          else get_constraints nid s ++ [c])
    else get_constraints k s.
Proof.
  unfold get_constraints, add_constraint.
  destruct (constraints s !! nid) as [l|] eqn:El; simpl.
  - rewrite El. simpl. case_bool_decide; simpl.
    + case_decide; [by subst; rewrite El|done].
    + case_decide.
      * subst. by rewrite lookup_alter_eq, El.
      * by rewrite lookup_alter_ne.
  - rewrite lookup_insert_eq. simpl.
    try rewrite bool_decide_false by apply not_elem_of_nil.
    simpl. case_decide.
    + subst. by rewrite lookup_alter_eq, lookup_insert_eq.
    + by rewrite lookup_alter_ne, lookup_insert_ne.
Qed.

(** X13.  [add_constraint] keeps a node's constraints an ordered list
    without repetition: a constraint that is already there changes
    nothing (adding twice is adding once), a new one goes to the end;
    the lists of the other nodes are as before, and so are the node
    table, the dependency graph and the checkers. *)
Theorem add_constraint_appends_once (nid c : string) (s : Session) :
  get_constraints nid (add_constraint nid c s)
  = (if bool_decide (c ∈ get_constraints nid s) then get_constraints nid s
     else get_constraints nid s ++ [c]) /\
  (forall k, k <> nid -> get_constraints k (add_constraint nid c s) = get_constraints k s) /\
  (NoDup (get_constraints nid s) -> NoDup (get_constraints nid (add_constraint nid c s))) /\
  get_constraints nid (add_constraint nid c (add_constraint nid c s))
  = get_constraints nid (add_constraint nid c s) /\
  node_lookup (add_constraint nid c s) = node_lookup s /\
  dependency_graph (add_constraint nid c s) = dependency_graph s /\
  constraint_checkers (add_constraint nid c s) = constraint_checkers s.
Proof.
  split; [|split; [|split; [|split]]].
  - rewrite get_constraints_add_constraint. by rewrite decide_True.
  - intros k Hk. rewrite get_constraints_add_constraint. by rewrite decide_False.
  - intros Hnd. rewrite get_constraints_add_constraint, decide_True by done.
    case_bool_decide; [done|]. apply NoDup_app. split; [done|].
    split; [|apply NoDup_singleton]. intros x Hx Hx'%list_elem_of_singleton. by subst.
  - rewrite !get_constraints_add_constraint, !decide_True by done.
    destruct (bool_decide (c ∈ get_constraints nid s)) eqn:E.
    + by rewrite E.
    + rewrite bool_decide_true; [done|]. apply elem_of_app. right. by left.
  - rewrite add_constraint_node_lookup, add_constraint_dependency_graph.
    split; [done|]. split; [done|]. unfold add_constraint.
    destruct (constraints s !! nid); simpl;
      match goal with |- context [if ?b then _ else _] => destruct b end; reflexivity.
Qed.

Lemma get_dependencies_add_dependency a b k s :
  get_dependencies k (add_dependency a b s)
  = if decide (k = a)
    then match b with
         | Some d =>
             if truthy (PStr d) && negb (bool_decide (d ∈ get_dependencies a s))
             then get_dependencies a s ++ [d] else get_dependencies a s
         | None => get_dependencies a s
         end
    else get_dependencies k s.
Proof.
  unfold get_dependencies, add_dependency.
  destruct (dependency_graph s !! a) as [l|] eqn:El.
  - destruct b as [d|].
    + rewrite El. simpl.
      destruct (_ && _); simpl.
      * case_decide; [subst; by rewrite lookup_alter_eq, El|by rewrite lookup_alter_ne].
      * case_decide; [by subst; rewrite El|done].
    + case_decide; [by subst; rewrite El|done].
  - simpl. destruct b as [d|].
    + rewrite lookup_insert_eq. simpl.
      destruct (_ && _); simpl.
      * case_decide; [subst; by rewrite lookup_alter_eq, lookup_insert_eq
                     |by rewrite lookup_alter_ne, lookup_insert_ne].
      * case_decide; [subst; by rewrite lookup_insert_eq|by rewrite lookup_insert_ne].
    + simpl. case_decide; [subst; by rewrite lookup_insert_eq|by rewrite lookup_insert_ne].
Qed.

(** X14.  [track_dependencies(parent, current)] gives the current node
    an entry in the dependency graph in every case - with no parent
    ([None], or an empty identifier) the entry is left as it is, or is
    the empty list when it is new - and otherwise adds the parent at the
    end of the list unless it is there already; tracking the same pair
    twice is tracking it once, and the lists of the other nodes are as
    before. *)
Theorem track_dependencies_spec (parent : option string) (current : string) (s : Session) :
  is_Some (dependency_graph (track_dependencies parent current s) !! current) /\
  get_dependencies current (track_dependencies parent current s)
  = match parent with
    | Some p =>
        if String.eqb p EmptyString || bool_decide (p ∈ get_dependencies current s)
        then get_dependencies current s
        else get_dependencies current s ++ [p]
    | None => get_dependencies current s
    end /\
  (forall k, k <> current ->
     get_dependencies k (track_dependencies parent current s) = get_dependencies k s) /\
  get_dependencies current
    (track_dependencies parent current (track_dependencies parent current s))
  = get_dependencies current (track_dependencies parent current s).
Proof.
  unfold track_dependencies. split; [|split; [|split]].
  - unfold add_dependency.
    destruct (dependency_graph s !! current) as [l|] eqn:El; destruct parent as [p|]; simpl.
    + rewrite El. simpl. destruct (_ && _); simpl; [|by rewrite El].
      rewrite lookup_alter_eq, El. by eexists.
    + by rewrite El.
    + rewrite lookup_insert_eq. simpl. destruct (_ && _); simpl.
      * rewrite lookup_alter_eq, lookup_insert_eq. by eexists.
      * rewrite lookup_insert_eq. by eexists.
    + rewrite lookup_insert_eq. by eexists.
  - rewrite get_dependencies_add_dependency, decide_True by done.
    destruct parent as [p|]; [|done]. simpl.
    destruct (String.eqb p ""); simpl; [done|]. by destruct (bool_decide _).
  - intros k Hk. by rewrite get_dependencies_add_dependency, decide_False.
  - rewrite !get_dependencies_add_dependency, !decide_True by done.
    destruct parent as [p|]; [|done]. simpl.
    destruct (String.eqb p ""); simpl; [done|].
    destruct (bool_decide (p ∈ get_dependencies current s)) eqn:E; simpl.
    + by rewrite E.
    + rewrite bool_decide_true; [done|]. apply elem_of_app. right. by left.
Qed.

(** ** What a deletion leaves alone *)

Definition same_outside_tree (s s' : Session) : Prop :=
  constraint_checkers s' = constraint_checkers s /\ root_node_id s' = root_node_id s
  /\ global_context s' = global_context s /\ execution_count s' = execution_count s
  /\ uuid_count s' = uuid_count s /\ llm_calls s' = llm_calls s /\ trace s' = trace s.

Lemma delete_frame (t0 : gmap string Node) fuel : forall node s s',
  (forall k n, node_lookup s !! k = Some n -> t0 !! k = Some n) ->
  delete_node_and_children fuel node s = Some s' ->
  (forall k n, node_lookup s' !! k = Some n -> node_lookup s !! k = Some n) /\
  (forall k, ~ reaches t0 node k ->
     node_lookup s' !! k = node_lookup s !! k /\ constraints s' !! k = constraints s !! k) /\
  same_outside_tree s s'.
Proof.
  induction fuel as [|fuel IH]; intros node s s' Hsub Hrun; [done|].
  simpl in Hrun.
  set (visit := fun (acc : option Session) (child_id : string) =>
                  match acc with
                  | Some s1 =>
                      match node_lookup s1 !! child_id with
                      | Some child => delete_node_and_children fuel child s1
                      | None => Some s1
                      end
                  | None => None
                  end) in Hrun.
  assert (Hloop : forall l s1 s2,
            (forall c, c ∈ l -> c ∈ child_ids node) ->
            (forall k n, node_lookup s1 !! k = Some n -> t0 !! k = Some n) ->
            foldl visit (Some s1) l = Some s2 ->
            (forall k n, node_lookup s2 !! k = Some n -> node_lookup s1 !! k = Some n) /\
            (forall k, ~ reaches t0 node k ->
               node_lookup s2 !! k = node_lookup s1 !! k
               /\ constraints s2 !! k = constraints s1 !! k) /\
            same_outside_tree s1 s2).
  { induction l as [|c l IHl]; intros s1 s2 Hin Hsub1 Hfold.
    - simpl in Hfold. injection Hfold as <-. unfold same_outside_tree. done.
    - change (foldl visit (Some s1) (c :: l)) with (foldl visit (visit (Some s1) c) l)
        in Hfold.
      destruct (visit (Some s1) c) as [s1'|] eqn:Ev.
      2:{ clear -Hfold. exfalso. induction l as [|? ? IHl']; [done|]. apply IHl'.
          exact Hfold. }
      assert (Hstep : (forall k n, node_lookup s1' !! k = Some n ->
                                   node_lookup s1 !! k = Some n) /\
                      (forall k, ~ reaches t0 node k ->
                         node_lookup s1' !! k = node_lookup s1 !! k
                         /\ constraints s1' !! k = constraints s1 !! k) /\
                      same_outside_tree s1 s1').
      { unfold visit in Ev. destruct (node_lookup s1 !! c) as [child|] eqn:Ec.
        - destruct (IH child s1 s1' Hsub1 Ev) as (Hs & Hf & Ho).
          split; [done|]. split; [|done]. intros k Hk. apply Hf. intros Hr. apply Hk.
          eapply reaches_child; [apply Hin; by left|by apply Hsub1|done].
        - injection Ev as <-. unfold same_outside_tree. done. }
      destruct Hstep as (Hs1 & Hf1 & Ho1).
      destruct (IHl s1' s2) as (Hs2 & Hf2 & Ho2).
      + intros c' Hc'. apply Hin. by right.
      + intros k n Hk. apply Hsub1. by apply Hs1.
      + done.
      + split; [auto|]. split.
        * intros k Hk. destruct (Hf1 k Hk) as [E1 E2]. destruct (Hf2 k Hk) as [E3 E4].
          split; congruence.
        * unfold same_outside_tree in *.
          destruct Ho1 as (? & ? & ? & ? & ? & ? & ?).
          destruct Ho2 as (? & ? & ? & ? & ? & ? & ?). repeat split; congruence. }
  destruct (foldl visit (Some s) (child_ids node)) as [s2|] eqn:Ef; [|done].
  injection Hrun as <-.
  destruct (Hloop (child_ids node) s s2) as (Hs & Hf & Ho); [done|done|done|].
  split; [|split].
  - intros k n Hk. rewrite remove_node_node_lookup in Hk. simpl in Hk.
    apply lookup_delete_Some in Hk as [_ Hk]. auto.
  - intros k Hk. assert (k <> node_id node) by (intros ->; apply Hk; constructor).
    destruct (Hf k Hk) as [<- <-]. rewrite remove_node_node_lookup, remove_node_constraints.
    simpl. by rewrite !lookup_delete_ne.
  - unfold same_outside_tree in *. destruct Ho as (? & ? & ? & ? & ? & ? & ?).
    repeat split; simpl; congruence.
Qed.

(** X15.  A deletion touches the subtree only.  When
    [delete_node_and_children] returns, every node of the table that is
    neither the deleted node nor one of its descendants is still in the
    table, unchanged, with its constraint list unchanged; no node is
    added or altered; the checkers, the root identifier, the global
    context and the execution counter are as before and neither the
    gateway nor a checker was called.  (The identifier of a deleted child
    stays in the child list of its surviving parent.) *)
Theorem delete_keeps_the_rest (s s' : Session) (node : Node) (fuel : nat) :
  delete_node_and_children fuel node s = Some s' ->
  (forall k, ~ reaches (node_lookup s) node k ->
     node_lookup s' !! k = node_lookup s !! k /\ constraints s' !! k = constraints s !! k) /\
  (forall k n, node_lookup s' !! k = Some n -> node_lookup s !! k = Some n) /\
  constraint_checkers s' = constraint_checkers s /\ root_node_id s' = root_node_id s /\
  global_context s' = global_context s /\ execution_count s' = execution_count s /\
  llm_calls s' = llm_calls s /\ trace s' = trace s.
Proof.
  intros Hrun.
  destruct (delete_frame (node_lookup s) fuel node s s') as (Hs & Hf & Ho); [done|done|].
  destruct Ho as (? & ? & ? & ? & ? & ? & ?). done.
Qed.

Lemma delete_keeps_the_rest_witness :
  let s' := default session0
              (delete_node_and_children 5 (node_at session_tree "1") session_tree) in
  (forall k, ~ reaches (node_lookup session_tree) (node_at session_tree "1") k ->
     node_lookup s' !! k = node_lookup session_tree !! k
     /\ constraints s' !! k = constraints session_tree !! k) /\
  (forall k n, node_lookup s' !! k = Some n -> node_lookup session_tree !! k = Some n) /\
  constraint_checkers s' = constraint_checkers session_tree /\
  root_node_id s' = root_node_id session_tree /\
  global_context s' = global_context session_tree /\
  execution_count s' = execution_count session_tree /\
  llm_calls s' = llm_calls session_tree /\ trace s' = trace session_tree.
Proof.
  apply (delete_keeps_the_rest session_tree _ (node_at session_tree "1") 5).
  vm_compute. reflexivity.
Defined.

(** ** Retrying a call *)

(** X16.  [handle_retryable_error(func)] calls [func] at most three
    times.  It returns the value of the first call that succeeds, having
    slept [RETRY_DELAY] after each failed call before it; when the third
    call fails too, the exception of that call is raised, with no sleep
    after it.  The [RuntimeError] at the end of the function is never
    raised. *)
Theorem handle_retryable_error_spec {A} (func : M A) (s : Session) :
  (forall a s1, func s = (Ok a, s1) -> handle_retryable_error func s = (Ok a, s1)) /\
  (forall e1 s1 a s2,
     func s = (Raise e1, s1) -> func (emit (EvSleep RETRY_DELAY) s1) = (Ok a, s2) ->
     handle_retryable_error func s = (Ok a, s2)) /\
  (forall e1 s1 e2 s2 r s3,
     func s = (Raise e1, s1) -> func (emit (EvSleep RETRY_DELAY) s1) = (Raise e2, s2) ->
     func (emit (EvSleep RETRY_DELAY) s2) = (r, s3) ->
     handle_retryable_error func s = (r, s3)).
Proof.
  unfold handle_retryable_error. change MAX_RETRIES with 3.
  cbn [retry_while]. unfold try_except, bind, sleep, modify, raise.
  split; [|split].
  - intros a s1 ->. done.
  - intros e1 s1 a s2 -> ->. done.
  - intros e1 s1 e2 s2 r s3 -> -> ->. by destruct r.
Qed.

Lemma handle_retryable_error_spec_witness :
  handle_retryable_error (generate_content (env_ex gateway_down) "ping") session0
  = (Raise (Exception "ConnectionError" "gateway unreachable"),
     with_llm_calls 3
       (emit (EvGenerate "ping")
          (emit (EvSleep RETRY_DELAY)
             (with_llm_calls 2
                (emit (EvGenerate "ping")
                   (emit (EvSleep RETRY_DELAY)
                      (with_llm_calls 1 (emit (EvGenerate "ping") session0)))))))).
Proof.
  destruct (handle_retryable_error_spec (generate_content (env_ex gateway_down) "ping")
              session0) as (_ & _ & Hthree).
  eapply Hthree; reflexivity.
Defined.

(** ** Subtasks become children ([src/agent]) *)

Lemma create_subtasks_fold env nid entries : forall s,
  for_each entries (AgentPkg.create_subtask env nid) s
  = (Ok tt, foldl (fun acc t => _create_child_node env nid t acc) s
              (omap subtask_description entries)).
Proof.
  induction entries as [|e entries IH]; intros s; [done|].
  cbn [for_each]. unfold bind.
  destruct e as [| | | |t|l|d]; simpl; try apply IH.
  destruct (dict_get d "task_description") as [t|]; simpl; apply IH.
Qed.

Lemma create_children_inv env (Hinj : forall i j, uuid4 env i = uuid4 env j -> i = j)
    nid tasks : forall s,
  tree_inv env s -> is_Some (node_lookup s !! nid) ->
  let s' := foldl (fun acc t => _create_child_node env nid t acc) s tasks in
  tree_inv env s' /\ is_Some (node_lookup s' !! nid)
  /\ uuid_count s' = uuid_count s + List.length tasks.
Proof.
  induction tasks as [|t tasks IH]; intros s Hinv [pn Hpn]; simpl.
  - split; [done|]. split; [by eexists|lia].
  - destruct (IH (_create_child_node env nid t s)) as (Hi & Hn & Hu).
    + by eapply create_child_inv.
    + unfold _create_child_node.
      destruct (create_child_node_spec env nid t (depth (node_at s nid) + 1) s pn Hpn)
        as (Ht & _). rewrite Ht.
      destruct (decide (nid = uuid4 env (uuid_count s))) as [->|Hne].
      * by rewrite (fresh_uuid env Hinj s Hinv) in Hpn.
      * rewrite lookup_alter_eq, lookup_insert_ne, Hpn by done. by eexists.
    + split; [done|]. split; [done|]. rewrite Hu. unfold _create_child_node.
      destruct (create_child_node_spec env nid t (depth (node_at s nid) + 1) s pn Hpn)
        as (_ & -> & _). lia.
Qed.

(** X17.  Subtasks become children ([Node.process_llm_output] of
    [src/agent]).  When the extracted object has a list under
    [subtasks], one child is created, in the order of the list, for every
    entry that is a string (with the string as task) or an object with a
    key [task_description] (with its value as task); entries of any
    other shape create nothing, and no [result] is stored.  Each child
    is created like any child of the node, so a tree that satisfies the
    depth invariant still does, and as many identifiers are drawn as
    children are made. *)
Theorem process_llm_output_creates_children
    (env : Env) (nid text : string) (s : Session) (d : list (string * pyval))
    (entries : list pyval) :
  AgentPkg.extract_json_from_text env text = Ok (PDict d) ->
  dict_get d "subtasks" = Some (PList entries) ->
  let s' := foldl (fun acc t => _create_child_node env nid t acc) s
              (omap subtask_description entries) in
  AgentPkg.process_llm_output env nid text s = (Ok tt, s') /\
  ((forall i j, uuid4 env i = uuid4 env j -> i = j) -> tree_inv env s ->
   is_Some (node_lookup s !! nid) ->
   tree_inv env s' /\
   uuid_count s' = uuid_count s + List.length (omap subtask_description entries)).
Proof.
  intros Hx Hsub s'. split.
  - unfold AgentPkg.process_llm_output, try_except, bind, lift_result. rewrite Hx.
    assert (Ht : truthy (PDict d) = true) by (by destruct d).
    rewrite Ht. simpl. rewrite Hsub. rewrite bool_decide_true by eauto. simpl.
    by rewrite create_subtasks_fold.
  - intros Hinj Hinv Hn.
    destruct (create_children_inv env Hinj nid (omap subtask_description entries) s Hinv Hn)
      as (? & _ & ?). done.
Qed.

Lemma process_llm_output_creates_children_witness :
  let env := env_ex gateway_down in
  let s' := foldl (fun acc t => _create_child_node env "1" t acc) session_tree
              (omap subtask_description [PStr "a"; PStr "b"]) in
  AgentPkg.process_llm_output env "1" text_subtasks session_tree = (Ok tt, s') /\
  ((forall i j, uuid4 env i = uuid4 env j -> i = j) -> tree_inv env session_tree ->
   is_Some (node_lookup session_tree !! "1") ->
   tree_inv env s' /\
   uuid_count s' = uuid_count session_tree
                   + List.length (omap subtask_description [PStr "a"; PStr "b"])).
Proof.
  apply (process_llm_output_creates_children (env_ex gateway_down) "1" text_subtasks
           session_tree [("subtasks", PList [PStr "a"; PStr "b"])] [PStr "a"; PStr "b"]).
  - vm_compute. reflexivity.
  - reflexivity.
Defined.

Example children_of_node_1_after_output :
  let s' := (AgentPkg.process_llm_output (env_ex gateway_down) "1" text_subtasks
               session_tree).2 in
  child_ids (node_at s' "1") = ["3"; "4"; "5"]
  /\ (fun k => task_description (node_at s' k)) <$> ["4"; "5"] = [PStr "a"; PStr "b"]
  /\ (fun k => depth (node_at s' k)) <$> ["4"; "5"] = [2%Z; 2%Z]
  /\ dependency_graph s' !! "5" = Some ["1"].
Proof. vm_compute. done. Qed.

(** ** The verdict of the built-in checkers ([src/agent]) *)

Lemma alter_const_id (m : gmap string Node) (k : string) (n : Node) :
  m !! k = Some n -> alter (fun _ => n) k m = m.
Proof.
  intros H. apply map_eq. intros i. destruct (decide (i = k)) as [->|Hne].
  - by rewrite lookup_alter_eq, H.
  - by rewrite lookup_alter_ne.
Qed.

(** What a checker written in [attention_mechanism.py] does to the node
    it is given. *)
Definition checker_verdict (node : Node) (out : result bool * Node) : Prop :=
  match out with
  | (Ok true, node') => node' = node
  | (Ok false, node') =>
      status node' = "failed"
      /\ is_prefix "Constraint violated: " (error_message node') = true
      /\ output node' = output node /\ child_ids node' = child_ids node
      /\ local_memory node' = local_memory node /\ node_id node' = node_id node
  | (Raise e, node') => node' = node /\ exn_cls e <> "JSONDecodeError"
  end.

Lemma builtin_checker_verdict env (c : ConstraintChecker) (v : string) (node : Node) :
  c = _check_json_format env \/ c = _check_contains_word \/ c = _check_max_length ->
  checker_verdict node (c v node).
Proof.
  intros [->|[->| ->]]; unfold checker_verdict.
  - unfold _check_json_format. destruct (json_loads env (output node)) as [x|e]; [done|].
    destruct (exn_cls e =? "JSONDecodeError")%string eqn:Ee.
    + done.
    + split; [done|]. intros Hc. rewrite Hc in Ee. discriminate.
  - unfold _check_contains_word. by destruct (str_contains v (output node)).
  - unfold _check_max_length. destruct (py_int v) as [n|]; [|done].
    by destruct (Z.of_nat (String.length (output node)) <=? n)%Z.
Qed.

Lemma setup_agent_registry env k (c : ConstraintChecker) :
  constraint_checkers (AgentPkg.setup_agent env session0) !! k = Some c ->
  c = _check_json_format env \/ c = _check_contains_word \/ c = _check_max_length.
Proof.
  unfold AgentPkg.setup_agent. simpl. intros H.
  rewrite lookup_insert in H. case_decide; [injection H as <-; auto|].
  rewrite lookup_insert in H. case_decide; [injection H as <-; auto|].
  rewrite lookup_insert in H. case_decide; [injection H as <-; auto|].
  by rewrite lookup_empty in H.
Qed.

Lemma check_each_builtin env parse nid cs : forall s r s',
  (forall k c, constraint_checkers s !! k = Some c ->
     c = _check_json_format env \/ c = _check_contains_word \/ c = _check_max_length) ->
  is_Some (node_lookup s !! nid) ->
  check_each parse nid cs s = (r, s') ->
  match r with
  | Ok true => node_lookup s' = node_lookup s
  | Ok false =>
      checker_verdict (node_at s nid) (Ok false, node_at s' nid)
      /\ forall k, k <> nid -> node_lookup s' !! k = node_lookup s !! k
  | Raise e => node_lookup s' = node_lookup s /\ exn_cls e <> "JSONDecodeError"
  end.
Proof.
  induction cs as [|c cs IH]; intros s r s' Hreg [n Hn] Hrun.
  - simpl in Hrun. unfold ret in Hrun. by injection Hrun as <- <-.
  - rewrite check_each_cons in Hrun.
    destruct (constraint_checkers s !! (parse c).1) as [checker|] eqn:Ec;
      [|by apply IH; eauto].
    pose proof (builtin_checker_verdict env checker (parse c).2 (node_at s nid)
                  (Hreg _ _ Ec)) as Hv.
    unfold call_checker in Hrun.
    destruct (checker (parse c).2 (node_at s nid)) as [[[|]|e] node'];
      unfold checker_verdict in Hv.
    + subst node'.
      assert (Hsame : node_lookup (update_node nid (fun _ => node_at s nid)
                         (emit (EvChecker (parse c).1 (parse c).2) s)) = node_lookup s).
      { simpl. apply alter_const_id. unfold node_at. by rewrite Hn. }
      apply IH in Hrun; [| done | by rewrite Hsame, Hn].
      unfold node_at in *. rewrite Hsame in Hrun. exact Hrun.
    + injection Hrun as <- <-. split.
      * unfold checker_verdict.
        rewrite (node_at_update_node nid _ _ n) by done. exact Hv.
      * intros k Hk. simpl. by rewrite lookup_alter_ne.
    + injection Hrun as <- <-. destruct Hv as [-> Hcls]. split; [|done].
      simpl. apply alter_const_id. unfold node_at. by rewrite Hn.
Qed.

(** X18.  The verdict of [check_constraints] with the checkers that
    [Agent.setup_agent] registers ([format], [contains], [max_length]),
    whatever the node's constraints are.  When the result is [True] no
    node was touched.  When it is [False] the node is [failed] with a
    message that starts with [Constraint violated: ], its output, children
    and memory are as before and no other node changed.  The call raises
    only when [json.loads] raises something other than a decoding error,
    and then no node was touched either. *)
Theorem builtin_checkers_verdict
    (env : Env) (parse : string -> string * string) (nid : string) (s s' : Session)
    (r : result bool) :
  constraint_checkers s = constraint_checkers (AgentPkg.setup_agent env session0) ->
  is_Some (node_lookup s !! nid) ->
  check_constraints parse nid s = (r, s') ->
  match r with
  | Ok true => node_lookup s' = node_lookup s
  | Ok false =>
      (status (node_at s' nid) = "failed"
       /\ is_prefix "Constraint violated: " (error_message (node_at s' nid)) = true
       /\ output (node_at s' nid) = output (node_at s nid)
       /\ child_ids (node_at s' nid) = child_ids (node_at s nid)
       /\ local_memory (node_at s' nid) = local_memory (node_at s nid)
       /\ node_id (node_at s' nid) = node_id (node_at s nid))
      /\ forall k, k <> nid -> node_lookup s' !! k = node_lookup s !! k
  | Raise e => node_lookup s' = node_lookup s /\ exn_cls e <> "JSONDecodeError"
  end.
Proof.
  intros Hreg Hn Hrun. unfold check_constraints, bind, get_session in Hrun.
  assert (Hb : forall k c, constraint_checkers s !! k = Some c ->
            c = _check_json_format env \/ c = _check_contains_word \/ c = _check_max_length).
  { intros k c Hc. rewrite Hreg in Hc. by apply (setup_agent_registry env k). }
  pose proof (check_each_builtin env parse nid _ s r s' Hb Hn Hrun) as H.
  destruct r as [[|]|e]; exact H.
Qed.

Lemma builtin_checkers_verdict_witness :
  let s := session_checked "abcdef x" in
  let s' := (check_constraints AgentPkg.parse_constraint "0" s).2 in
  (status (node_at s' "0") = "failed"
   /\ is_prefix "Constraint violated: " (error_message (node_at s' "0")) = true
   /\ output (node_at s' "0") = output (node_at s "0")
   /\ child_ids (node_at s' "0") = child_ids (node_at s "0")
   /\ local_memory (node_at s' "0") = local_memory (node_at s "0")
   /\ node_id (node_at s' "0") = node_id (node_at s "0"))
  /\ forall k, k <> "0" -> node_lookup s' !! k = node_lookup s !! k.
Proof.
  apply (builtin_checkers_verdict (env_ex gateway_down) AgentPkg.parse_constraint "0"
           (session_checked "abcdef x")
           (check_constraints AgentPkg.parse_constraint "0" (session_checked "abcdef x")).2
           (Ok false)).
  - reflexivity.
  - vm_compute. eauto.
  - vm_compute. reflexivity.
Defined.

(** ** Summarising a node ([src/agent]) *)








Example summarize_node_with_gateway_down :
  let s' := (AgentPkg.summarize_node (env_ex gateway_down) "1" session_tree).2 in
  global_context s'
  = PStr ("This agent decomposes complex tasks." +:+ nl
          +:+ "- Node 1 (pending): Error during summarization: gateway unreachable")
  /\ execution_count s' = 1%Z /\ llm_calls s' = 1.
Proof. vm_compute. done. Qed.

(** X20.  [summarize_node] of [src/agent] when the global context is not
    a string (which [_summarize_global_context] brings about when the
    value under [summary] in the gateway's answer is not one): the
    concatenation in the [try] block raises, the handler concatenates
    again, and the [TypeError] leaves the function.  The gateway was
    called once, and the execution counter and the context are as
    before. *)
Theorem summarize_node_needs_string_context (env : Env) (nid : string) (s : Session) :
  is_str (global_context s) = false ->
  exists e s', AgentPkg.summarize_node env nid s = (Raise e, s')
    /\ exn_cls e = "TypeError"
    /\ execution_count s' = execution_count s
    /\ global_context s' = global_context s
    /\ llm_calls s' = 1 + llm_calls s.
Proof.
  intros Hc.
  assert (Hadd : forall t, exists e, py_add_str (global_context s) t = Raise e
                                     /\ exn_cls e = "TypeError").
  { intros t. destruct (global_context s); try discriminate Hc; by eexists. }
  unfold AgentPkg.summarize_node, bind, get_session, try_except, generate_content,
    lift_result, modify, AgentPkg.append_context, bind, get_session, lift_result, modify, ret.
  simpl.
  destruct (llm env (llm_calls s) _) as [content|e]; simpl.
  - destruct (json_loads env content) as [v|e]; simpl.
    + destruct (py_get v "task_summary" _) as [x|e]; simpl.
      * destruct (py_get v "result_summary" _) as [y|e]; simpl.
        -- match goal with |- context [py_add_str _ ?t] =>
             destruct (Hadd t) as (e1 & -> & _) end. simpl.
           match goal with |- context [py_add_str _ ?t] =>
             destruct (Hadd t) as (e2 & -> & He2) end. simpl. by eexists _, _.
        -- match goal with |- context [py_add_str _ ?t] =>
             destruct (Hadd t) as (e2 & -> & He2) end. simpl. by eexists _, _.
      * match goal with |- context [py_add_str _ ?t] =>
          destruct (Hadd t) as (e2 & -> & He2) end. simpl. by eexists _, _.
    + match goal with |- context [py_add_str _ ?t] =>
        destruct (Hadd t) as (e2 & -> & He2) end. simpl. by eexists _, _.
  - match goal with |- context [py_add_str _ ?t] =>
      destruct (Hadd t) as (e2 & -> & He2) end. simpl. by eexists _, _.
Qed.

Lemma summarize_node_needs_string_context_witness :
  let s := with_global_context (PInt 5) session_tree in
  exists e s', AgentPkg.summarize_node (env_ex gateway_down) "1" s = (Raise e, s')
    /\ exn_cls e = "TypeError"
    /\ execution_count s' = execution_count s
    /\ global_context s' = global_context s
    /\ llm_calls s' = 1 + llm_calls s.
Proof.
  apply (summarize_node_needs_string_context (env_ex gateway_down) "1"
           (with_global_context (PInt 5) session_tree)).
  reflexivity.
Defined.

Example non_string_summary_breaks_later_summaries :
  let env := mkEnv (fun _ => EmptyString) (fun _ _ => Ok "S")
               (fun _ => Ok (PDict [("summary", PInt 5)]))
               (fun _ _ _ => []) (fun _ _ _ => []) (fun _ _ _ => None)
               (fun _ _ _ text => text) (fun _ => EmptyString) in
  let s1 := (AgentPkg._summarize_global_context env session_tree).2 in
  global_context s1 = PInt 5
  /\ (AgentPkg.summarize_node env "1" s1).1
     = Raise (Exception "TypeError" "unsupported operand type(s) for +").
Proof. vm_compute. done. Qed.

(** ** Propagating constraints to the children *)

Lemma add_constraint_present nid c s :
  c ∈ get_constraints nid s -> add_constraint nid c s = s.
Proof.
  unfold get_constraints, add_constraint. intros Hin.
  destruct (constraints s !! nid) as [l|] eqn:El; simpl in *.
  - rewrite El. simpl. by rewrite bool_decide_true.
  - by apply not_elem_of_nil in Hin.
Qed.

Lemma add_constraint_frame nid c s :
  node_lookup (add_constraint nid c s) = node_lookup s
  /\ dependency_graph (add_constraint nid c s) = dependency_graph s
  /\ constraint_checkers (add_constraint nid c s) = constraint_checkers s
  /\ root_node_id (add_constraint nid c s) = root_node_id s
  /\ global_context (add_constraint nid c s) = global_context s
  /\ execution_count (add_constraint nid c s) = execution_count s
  /\ uuid_count (add_constraint nid c s) = uuid_count s
  /\ llm_calls (add_constraint nid c s) = llm_calls s
  /\ trace (add_constraint nid c s) = trace s.
Proof.
  unfold add_constraint. destruct (constraints s !! nid); simpl; case_bool_decide; done.
Qed.

(** What the tracker's constraint operations leave alone. *)
Definition same_but_constraints (s s' : Session) : Prop :=
  node_lookup s' = node_lookup s /\ dependency_graph s' = dependency_graph s
  /\ constraint_checkers s' = constraint_checkers s /\ root_node_id s' = root_node_id s
  /\ global_context s' = global_context s /\ execution_count s' = execution_count s
  /\ uuid_count s' = uuid_count s /\ llm_calls s' = llm_calls s /\ trace s' = trace s.

Lemma propagate_to_child_spec pcs c : forall s,
  let s' := propagate_to_child pcs s c in
  same_but_constraints s s'
  /\ (forall k, k <> c -> get_constraints k s' = get_constraints k s)
  /\ (exists added, get_constraints c s' = get_constraints c s ++ added
        /\ forall x, x ∈ added -> x ∈ pcs /\ x ∉ get_constraints c s)
  /\ (forall x, x ∈ pcs -> x ∈ get_constraints c s').
Proof.
  unfold propagate_to_child.
  induction pcs as [|x pcs IH]; intros s; simpl.
  - split; [done|]. split; [done|]. split; [|by intros x Hx; apply not_elem_of_nil in Hx].
    exists []. rewrite app_nil_r. split; [done|]. by intros x Hx; apply not_elem_of_nil in Hx.
  - set (s1 := if bool_decide (x ∈ get_constraints c s) then s else add_constraint c x s).
    assert (H1 : same_but_constraints s s1
                 /\ (forall k, k <> c -> get_constraints k s1 = get_constraints k s)
                 /\ get_constraints c s1
                    = get_constraints c s
                      ++ (if bool_decide (x ∈ get_constraints c s) then [] else [x])).
    { subst s1. case_bool_decide as Hx.
      - rewrite app_nil_r. done.
      - split; [apply add_constraint_frame|]. split.
        + intros k Hk. rewrite get_constraints_add_constraint. by rewrite decide_False.
        + rewrite get_constraints_add_constraint, decide_True by done.
          by rewrite bool_decide_false. }
    destruct H1 as (Hf1 & Ho1 & Hc1).
    destruct (IH s1) as (Hf & Ho & (added & Hadd & Hnew) & Hall). clearbody s1.
    split; [|split; [|split]].
    + unfold same_but_constraints in *. intuition congruence.
    + intros k Hk. by rewrite Ho, Ho1.
    + eexists. rewrite Hadd, Hc1, <- app_assoc. split; [reflexivity|].
      intros y Hy. apply elem_of_app in Hy as [Hy|Hy].
      * case_bool_decide as Hx; [by apply not_elem_of_nil in Hy|].
        apply list_elem_of_singleton in Hy as ->. split; [left|done].
      * destruct (Hnew y Hy) as [Hin Hnot]. split; [by right|].
        intros Hold. apply Hnot. rewrite Hc1. apply elem_of_app. by left.
    + intros y Hy. apply elem_of_cons in Hy as [->|Hy]; [|by apply Hall].
      rewrite Hadd, Hc1. apply elem_of_app. left. apply elem_of_app.
      case_bool_decide as Hx; [by left|right; left].
Qed.

Lemma propagate_fold_spec pcs cs : forall s,
  let s' := foldl (propagate_to_child pcs) s cs in
  same_but_constraints s s'
  /\ (forall k, exists added, get_constraints k s' = get_constraints k s ++ added
        /\ (k ∉ cs -> added = [])
        /\ forall x, x ∈ added -> x ∈ pcs /\ x ∉ get_constraints k s)
  /\ (forall c x, c ∈ cs -> x ∈ pcs -> x ∈ get_constraints c s').
Proof.
  induction cs as [|c0 cs IH]; intros s; simpl.
  - split; [done|]. split.
    + intros k. exists []. rewrite app_nil_r. split; [done|]. split; [done|].
      by intros x Hx; apply not_elem_of_nil in Hx.
    + by intros c x Hc; apply not_elem_of_nil in Hc.
  - destruct (propagate_to_child_spec pcs c0 s) as (Hf1 & Ho1 & (a1 & Ha1 & Hn1) & Hall1).
    destruct (IH (propagate_to_child pcs s c0)) as (Hf & Hk & Hall).
    split; [|split].
    + unfold same_but_constraints in *. intuition congruence.
    + intros k. destruct (Hk k) as (a2 & Ha2 & Hout & Hn2).
      destruct (decide (k = c0)) as [->|Hne].
      * exists (a1 ++ a2). rewrite Ha2, Ha1, <- app_assoc. split; [done|]. split.
        -- intros Hnot. exfalso. apply Hnot. left.
        -- intros x Hx. apply elem_of_app in Hx as [Hx|Hx]; [by apply Hn1|].
           destruct (Hn2 x Hx) as [Hin Hnot]. split; [done|].
           intros Hold. apply Hnot. rewrite Ha1. apply elem_of_app. by left.
      * exists a2. rewrite Ha2, Ho1 by done. split; [done|]. split.
        -- intros Hnot. apply Hout. intros Hin. apply Hnot. by right.
        -- intros x Hx. destruct (Hn2 x Hx) as [Hin Hnot]. split; [done|].
           by rewrite Ho1 in Hnot.
    + intros c x Hc Hx. apply elem_of_cons in Hc as [->|Hc]; [|by apply Hall].
      destruct (Hk c0) as (a2 & Ha2 & _). rewrite Ha2. apply elem_of_app. left.
      by apply Hall1.
Qed.

Lemma propagate_to_child_fixed pcs c s :
  (forall x, x ∈ pcs -> x ∈ get_constraints c s) -> propagate_to_child pcs s c = s.
Proof.
  unfold propagate_to_child. induction pcs as [|x pcs IH]; intros Hall; simpl; [done|].
  rewrite bool_decide_true by (apply Hall; left). apply IH. intros y Hy. apply Hall. by right.
Qed.

Lemma propagate_fold_fixed pcs cs s :
  (forall c x, c ∈ cs -> x ∈ pcs -> x ∈ get_constraints c s) ->
  foldl (propagate_to_child pcs) s cs = s.
Proof.
  induction cs as [|c cs IH]; intros Hall; simpl; [done|].
  rewrite propagate_to_child_fixed by (intros x Hx; apply Hall; [left|done]).
  apply IH. intros c' x Hc Hx. apply Hall; [by right|done].
Qed.

(** X21.  [AttentionMechanism.propagate_constraints].  Afterwards every
    child of the node carries every constraint of the node.  A list of
    constraints only grows at its end: the old list of each node is kept,
    in its order, and what is added to it are constraints of the parent
    that it did not hold; the list of a node that is no child of the
    parent (a grandchild, say) is as before.  Nothing but the constraints
    map changes, and propagating a second time changes nothing. *)
Theorem propagate_constraints_spec (p : string) (s : Session) :
  let s' := propagate_constraints p s in
  same_but_constraints s s'
  /\ (forall c x, c ∈ child_ids (node_at s p) -> x ∈ get_constraints p s ->
        x ∈ get_constraints c s')
  /\ (forall k, exists added, get_constraints k s' = get_constraints k s ++ added
        /\ (k ∉ child_ids (node_at s p) -> added = [])
        /\ forall x, x ∈ added -> x ∈ get_constraints p s /\ x ∉ get_constraints k s)
  /\ propagate_constraints p s' = s'.
Proof.
  unfold propagate_constraints, node_at.
  destruct (node_lookup s !! p) as [parent|] eqn:Ep; simpl.
  - destruct (propagate_fold_spec (get_constraints p s) (child_ids parent) s)
      as (Hf & Hk & Hall).
    split; [done|]. split; [by intros c x Hc Hx; apply Hall|]. split; [done|].
    set (s' := foldl (propagate_to_child (get_constraints p s)) s (child_ids parent)) in *.
    assert (Hp : get_constraints p s' = get_constraints p s).
    { destruct (Hk p) as (added & Hadd & _ & Hnew). destruct added as [|x added].
      - by rewrite app_nil_r in Hadd.
      - destruct (Hnew x) as [Hin Hnot]; [left|]. done. }
    destruct Hf as (Hnl & _). rewrite Hnl, Ep, Hp.
    apply propagate_fold_fixed. intros c x Hc Hx. by apply Hall.
  - split; [done|]. split; [by intros c x Hc; apply not_elem_of_nil in Hc|]. split.
    + intros k. exists []. rewrite app_nil_r. split; [done|]. split; [done|].
      by intros x Hx; apply not_elem_of_nil in Hx.
    + by rewrite Ep.
Qed.

Example propagate_from_the_root :
  let s' := propagate_constraints "0" (add_constraint "1" "short" session_tree) in
  (fun k => get_constraints k s') <$> ["0"; "1"; "2"; "3"]
  = [["code"]; ["short"; "code"]; ["code"]; []].
Proof. vm_compute. done. Qed.
